(** * rospkg.rospack: resource index and dependency closure resolver

    A shallow embedding of [src/rospkg/rospack.py] and the properties of
    its index-building crawl, cache reader, memoized dependency closure,
    stack projection and name expander.

    Conventions of the embedding:
    - Python [str] is [string]; a [dict] with string keys is a [gmap];
      a [set] of names is a [gset string].
    - Exceptions are values of [exn]; a method of a resolver instance is
      a function from the instance state to a [result] and the new state
      (the state after a raise is kept: Python does not roll back).
    - The file system, the working directory and the collaborators of
      the module ([rospkg.environment], [rospkg.manifest]) are the fields
      of a [World]. *)

From Stdlib Require Import Ascii String.
From stdpp Require Import base option list strings gmap sets.

#[local] Set Warnings "-clear-no-such-hyp".

Local Open Scope char_scope.
Local Open Scope stdpp_scope.

(** ** Python string operations used by the module *)

Module Str.

Definition chars : string → list ascii := String.list_ascii_of_string.
Definition of_chars : list ascii → string := String.string_of_list_ascii.

Fixpoint drop_while (f : ascii → bool) (l : list ascii) : list ascii :=
  match l with
  | [] => []
  | a :: l' => if f a then drop_while f l' else l
  end.

Fixpoint take_while (f : ascii → bool) (l : list ascii) : list ascii :=
  match l with
  | [] => []
  | a :: l' => if f a then a :: take_while f l' else []
  end.

(** [s[:-1]] *)
Definition drop_last (s : string) : string := of_chars (removelast (chars s)).

(** [s.startswith(p)] *)
Fixpoint startswith (p s : string) : bool :=
  match p, s with
  | EmptyString, _ => true
  | String a p', String b s' => if decide (a = b) then startswith p' s' else false
  | String _ _, EmptyString => false
  end.

(** [s.endswith(p)] *)
Definition endswith (p s : string) : bool :=
  startswith (String.rev p) (String.rev s).

(** [s[n:]] *)
Fixpoint drop (n : nat) (s : string) : string :=
  match n, s with
  | 0, _ => s
  | S n', String _ s' => drop n' s'
  | S _, EmptyString => EmptyString
  end.

(** Splitting at every separator character: [s.split(c)] for a one
    character [c], and [re.split] for a character class.  The result
    always has one more field than there are separators in [s]. *)
Fixpoint split_go (sep : ascii → bool) (cur : list ascii) (s : string) : list string :=
  match s with
  | EmptyString => [of_chars (rev cur)]
  | String a s' =>
      if sep a then of_chars (rev cur) :: split_go sep [] s'
      else split_go sep (a :: cur) s'
  end.
Definition split (sep : ascii → bool) (s : string) : list string := split_go sep [] s.

Definition is_char (c : ascii) : ascii → bool := fun a => bool_decide (a = c).

(** [s.strip()]: the whitespace of [string.whitespace]. *)
Definition strip (s : string) : string :=
  of_chars (rev (drop_while Ascii.is_space (rev (drop_while Ascii.is_space (chars s))))).

(** [sep.join(l)] *)
Fixpoint join (sep : string) (l : list string) : string :=
  match l with
  | [] => ""
  | [x] => x
  | x :: l' => x +:+ sep +:+ join sep l'
  end.

End Str.

(** ** [posixpath]: the functions of [os.path] the module calls *)

Module PosixPath.

Definition slash : ascii := "/".
Definition is_slash : ascii → bool := Str.is_char slash.
Definition not_slash (a : ascii) : bool := negb (is_slash a).

Definition isabs (p : string) : bool := Str.startswith "/" p.

(** [os.path.join(a, b)] *)
Definition join (a b : string) : string :=
  if Str.startswith "/" b then b
  else if bool_decide (a = "") || Str.endswith "/" a then a +:+ b
  else a +:+ "/" +:+ b.

(** [os.path.basename(p)]: what follows the last slash. *)
Definition basename (p : string) : string :=
  Str.of_chars (rev (Str.take_while not_slash (rev (Str.chars p)))).

(** [os.path.dirname(p)]: [head = p[:rfind('/')+1]], and the trailing
    slashes of [head] are stripped unless [head] is slashes only. *)
Definition dirname (p : string) : string :=
  let head := Str.drop_while not_slash (rev (Str.chars p)) in
  let stripped := Str.drop_while is_slash head in
  Str.of_chars (rev (match stripped with [] => head | _ => stripped end)).

(** [os.path.normpath(p)] *)
Definition norm_step (initial_slashes : nat) (new_comps : list string) (comp : string)
  : list string :=
  if bool_decide (comp = "") || bool_decide (comp = ".") then new_comps
  else if negb (bool_decide (comp = ".."))
          || (bool_decide (initial_slashes = 0) && bool_decide (new_comps = []))
          || bool_decide (last new_comps = Some "..")
       then new_comps ++ [comp]
       else removelast new_comps.

Definition normpath (p : string) : string :=
  if bool_decide (p = "") then "."
  else
    let initial_slashes :=
      if Str.startswith "/" p then
        if Str.startswith "//" p && negb (Str.startswith "///" p) then 2 else 1
      else 0 in
    let comps := foldl (norm_step initial_slashes) [] (Str.split is_slash p) in
    let path := Str.join "/" comps in
    let path := Str.of_chars (replicate initial_slashes slash) +:+ path in
    if bool_decide (path = "") then "." else path.

(** [os.path.abspath(p)], with the working directory an argument. *)
Definition abspath (cwd p : string) : string :=
  normpath (if isabs p then p else join cwd p).

End PosixPath.

Example basename_ex : PosixPath.basename "/opt/ros/pkg" = "pkg".
Proof. reflexivity. Qed.
Example dirname_ex :
  PosixPath.dirname "/opt/ros/pkg" = "/opt/ros" ∧ PosixPath.dirname "/opt" = "/"
  ∧ PosixPath.dirname "/" = "/" ∧ PosixPath.dirname "pkg" = ""
  ∧ PosixPath.dirname "/a//b/" = "/a//b".
Proof. repeat split; reflexivity. Qed.
Example normpath_ex :
  PosixPath.normpath "/a/./b/../c/" = "/a/c" ∧ PosixPath.abspath "/w" "x/y" = "/w/x/y"
  ∧ PosixPath.normpath "../a" = "../a" ∧ PosixPath.normpath "/.." = "/".
Proof. repeat split; reflexivity. Qed.
Example split_ex :
  Str.split (Str.is_char "/") "a//b" = ["a"; ""; "b"] ∧ Str.split (Str.is_char "/") "" = [""].
Proof. split; reflexivity. Qed.

(** ** The file system

    A tree of directories and regular files; symbolic links are followed
    by the crawl ([followlinks=True]) and are not distinguished from
    their targets.  A directory lists its entries in [os.listdir] order. *)

#[local] Unset Elimination Schemes.
Inductive node :=
| File (content : string)
| Dir (entries : list (string * node)).
#[local] Set Elimination Schemes.

Fixpoint assoc {A} (k : string) (l : list (string * A)) : option A :=
  match l with
  | [] => None
  | (k', v) :: l' => if decide (k' = k) then Some v else assoc k l'
  end.

Definition is_dir (n : node) : bool := match n with Dir _ => true | File _ => false end.

(** Path resolution, one component at a time; [stack] holds the
    directories above [cur], for [..]. *)
Fixpoint descend (stack : list node) (cur : node) (comps : list string) : option node :=
  match comps with
  | [] => Some cur
  | c :: rest =>
      match cur with
      | File _ => None
      | Dir es =>
          if bool_decide (c = "") || bool_decide (c = ".") then descend stack cur rest
          else if bool_decide (c = "..") then
            match stack with
            | [] => descend [] cur rest
            | up :: stack' => descend stack' up rest
            end
          else match assoc c es with
               | Some n => descend (cur :: stack) n rest
               | None => None
               end
      end
  end.

(** ** Exceptions and results *)

(** The Python values a caller can pass where the module expects names. *)
#[local] Unset Elimination Schemes.
Inductive pyval :=
| PyNone
| PyInt (z : Z)
| PyStr (s : string)
| PyList (l : list pyval)
| PyTuple (l : list pyval).
#[local] Set Elimination Schemes.

Fixpoint hashable (v : pyval) : bool :=
  match v with
  | PyNone | PyInt _ | PyStr _ => true
  | PyList _ => false
  | PyTuple l => forallb hashable l
  end.

Inductive exn :=
| ResourceNotFound (name : pyval)
| InvalidManifest (msg : string)
| ValueError (msg : string)
| TypeError (msg : string)
| IOError (msg : string).

Inductive result (A : Type) :=
| Ok (a : A)
| Raise (e : exn).
Arguments Ok {A} a.
Arguments Raise {A} e.

(** ** Manifests and the world outside the module *)

(** What [parse_manifest_file] returns, restricted to the attributes
    this module reads ([d.name for d in m.depends] is [depends]). *)
Record Manifest := {
  version : option string;
  depends : list string;
  rosdeps : list string;
}.

Definition MANIFEST_FILE : string := "manifest.xml".
Definition STACK_FILE : string := "stack.xml".

Record World := {
  fs_root : node;
  cwd : string;
  (** [rospkg.environment.get_ros_home()] *)
  get_ros_home : string;
  (** [rospkg.environment.compute_package_paths(ros_root, ros_package_path)] *)
  compute_package_paths : string → string → list string;
  (** [rospkg.manifest.parse_manifest_file(dirpath, manifest_name)] *)
  parse_manifest_file : string → string → result Manifest;
}.

Section FileSystem.
Context (w : World).

Definition resolve (p : string) : option node :=
  descend [] (fs_root w)
    (Str.split PosixPath.is_slash (if PosixPath.isabs p then p else PosixPath.join (cwd w) p)).

(** [os.path.exists], [os.path.isfile]; [open(p).read()] *)
Definition path_exists (p : string) : bool := bool_decide (is_Some (resolve p)).
Definition isfile (p : string) : bool :=
  match resolve p with Some (File _) => true | _ => false end.
Definition read_file (p : string) : option string :=
  match resolve p with Some (File s) => Some s | _ => None end.

End FileSystem.

(** [f.readlines()]: the lines of a text, each with its newline; only
    the last line can lack one. *)
Fixpoint readlines_go (cur : list ascii) (s : string) : list string :=
  match s with
  | EmptyString => match cur with [] => [] | _ => [Str.of_chars (rev cur)] end
  | String a s' =>
      if bool_decide (a = "010"%char) then Str.of_chars (rev (a :: cur)) :: readlines_go [] s'
      else readlines_go (a :: cur) s'
  end.
Definition readlines (s : string) : list string := readlines_go [] s.

(** ** [os.walk(top, topdown=True, followlinks=True)]

    The generator yields [(d, dirs, files)] and then walks the names left
    in [dirs] after the consumer has edited that list in place; [prune]
    is the consumer's edit, which in [list_by_path] depends on [files]
    and [dirs] only. *)

Definition dir_names (es : list (string * node)) : list string :=
  (filter (λ e, is_dir e.2 = true) es).*1.
Definition file_names (es : list (string * node)) : list string :=
  (filter (λ e, is_dir e.2 = false) es).*1.

Fixpoint walk_node (prune : list string → list string → list string)
    (t : node) (d : string) {struct t} : list (string * list string * list string) :=
  match t with
  | File _ => []
  | Dir es =>
      let dirs := dir_names es in
      let files := file_names es in
      let kids :=
        (fix go (es : list (string * node)) :=
           match es with
           | [] => []
           | (n, c) :: r => (n, walk_node prune c) :: go r
           end) es in
      (d, dirs, files) ::
        flat_map (λ n, match assoc n kids with
                       | Some k => k (PosixPath.join d n)
                       | None => []
                       end) (prune files dirs)
  end.

Definition os_walk (w : World) prune (top : string) : list (string * list string * list string) :=
  match resolve w top with
  | Some t => walk_node prune t top
  | None => []
  end.

(** ** The on-disk cache reader *)

(** The body of [for l in f.readlines()] and the check after the loop;
    [rv] and [ppv] are [ros_root_validated] and
    [ros_package_path_validated]. *)
Fixpoint read_cache_lines (ros_root ros_package_path : string) (lines : list string)
    (rv ppv : bool) (cache : gmap string string) : bool * gmap string string :=
  match lines with
  | [] => (if negb rv || negb ppv then false else true, cache)
  | l0 :: rest =>
      let l := Str.drop_last l0 in
      match l with
      | EmptyString => read_cache_lines ros_root ros_package_path rest rv ppv cache
      | String c _ =>
          if bool_decide (c = "#"%char) then
            if Str.startswith "#ROS_ROOT=" l then
              if negb (bool_decide (Str.drop (String.length "#ROS_ROOT=") l = ros_root))
              then (false, cache)
              else read_cache_lines ros_root ros_package_path rest true ppv cache
            else if Str.startswith "#ROS_PACKAGE_PATH=" l then
              if negb (bool_decide
                         (Str.drop (String.length "#ROS_PACKAGE_PATH=") l = ros_package_path))
              then (false, cache)
              else read_cache_lines ros_root ros_package_path rest rv true cache
            else read_cache_lines ros_root ros_package_path rest rv ppv cache
          else
            read_cache_lines ros_root ros_package_path rest rv ppv
              (<[PosixPath.basename l := l]> cache)
      end
  end.

(** [cache] is the caller's dictionary: the second component of the
    result is its content when the function returns or raises. *)
Definition _read_rospack_cache (w : World) (cache_name : string) (cache : gmap string string)
    (ros_root ros_package_path : string) : result bool * gmap string string :=
  let cache_path := PosixPath.join (get_ros_home w) cache_name in
  if negb (path_exists w cache_path) then (Ok false, cache)
  else
    match read_file w cache_path with
    | None => (Raise (IOError "Is a directory"), cache)
    | Some text =>
        let '(b, cache) :=
          read_cache_lines ros_root ros_package_path (readlines text) false false cache in
        (Ok b, cache)
    end.

(** ** The crawl *)

Fixpoint remove_first (x : string) (l : list string) : list string :=
  match l with
  | [] => []
  | y :: l' => if decide (x = y) then l' else y :: remove_first x l'
  end.

(** [di[0] == '.'] (a directory listing holds no empty name). *)
Definition is_hidden (di : string) : bool :=
  match di with
  | String c _ => bool_decide (c = "."%char)
  | EmptyString => false
  end.

(** [[dirs.remove(di) for di in dirs if di[0] == '.']]: the comprehension
    iterates by index over the list it is removing from, so the name
    that follows a removed one is stepped over.  [i] is the iterator's
    index; [fuel] bounds the steps (at most [length dirs]). *)
Fixpoint prune_hidden (fuel i : nat) (dirs : list string) : list string :=
  match fuel with
  | 0 => dirs
  | S fuel' =>
      match dirs !! i with
      | None => dirs
      | Some di =>
          if is_hidden di then prune_hidden fuel' (S i) (remove_first di dirs)
          else prune_hidden fuel' (S i) dirs
      end
  end.

(** What the loop body of [list_by_path] leaves in [dirs]. *)
Definition list_by_path_prune (manifest_name : string) (files dirs : list string)
  : list string :=
  if bool_decide (manifest_name ∈ files) then []
  else if bool_decide (MANIFEST_FILE ∈ files) then []
  else if bool_decide ("rospack_nosubdirs" ∈ files) then []
  else prune_hidden (length dirs) 0 dirs.

(** What the loop body does to [resources] and [cache]. *)
Definition list_by_path_visit (manifest_name : string)
    (st : list string * gmap string string) (y : string * list string * list string)
  : list string * gmap string string :=
  let '(d, _, files) := y in
  let '(resources, cache) := st in
  if bool_decide (manifest_name ∈ files) then
    let resource_name := PosixPath.basename d in
    if bool_decide (resource_name ∉ resources)
    then (resources ++ [resource_name], <[resource_name := d]> cache)
    else st
  else st.

(** [list_by_path(manifest_name, path, cache)]: the returned list and the
    content of the caller's [cache] afterwards (both callers pass a
    dictionary, never [None]). *)
Definition list_by_path (w : World) (manifest_name path : string) (cache : gmap string string)
  : list string * gmap string string :=
  let path := PosixPath.abspath (cwd w) path in
  foldl (list_by_path_visit manifest_name) ([], cache)
        (os_walk w (list_by_path_prune manifest_name) path).

Example prune_hidden_ex :
  prune_hidden 4 0 [".git"; ".svn"; "src"; ".hg"] = [".svn"; "src"].
Proof. reflexivity. Qed.

(** ** [ManifestManager]

    The instance state.  [_depends_cache] and [_rosdeps_cache] hold, per
    name, the elements of the object bound to that key: the placeholder
    [set] while (or after) a computation is under way, and the final
    list afterwards.  The local variable [s] of [get_depends] is the
    same object as [self._depends_cache[name]] until the final
    assignment, and a nested call never rebinds a key that is present;
    so every [s.update(...)] is modelled as an update of the entry, and
    a nested [get_depends(name)] reads the elements the placeholder has
    at that moment. *)

Record ManifestManager := {
  _manifest_name : string;
  _cache_name : string;
  _ros_root : string;
  _ros_package_path : string;
  _package_paths : list string;
  _manifests : gmap string Manifest;
  _depends_cache : gmap string (gset string);
  _rosdeps_cache : gmap string (gset string);
  _location_cache : option (gmap string string);
}.

Definition set_manifests (self : ManifestManager) (m : gmap string Manifest) :=
  {| _manifest_name := _manifest_name self; _cache_name := _cache_name self;
     _ros_root := _ros_root self; _ros_package_path := _ros_package_path self;
     _package_paths := _package_paths self; _manifests := m;
     _depends_cache := _depends_cache self; _rosdeps_cache := _rosdeps_cache self;
     _location_cache := _location_cache self |}.

Definition set_depends_cache (self : ManifestManager) (c : gmap string (gset string)) :=
  {| _manifest_name := _manifest_name self; _cache_name := _cache_name self;
     _ros_root := _ros_root self; _ros_package_path := _ros_package_path self;
     _package_paths := _package_paths self; _manifests := _manifests self;
     _depends_cache := c; _rosdeps_cache := _rosdeps_cache self;
     _location_cache := _location_cache self |}.

Definition set_rosdeps_cache (self : ManifestManager) (c : gmap string (gset string)) :=
  {| _manifest_name := _manifest_name self; _cache_name := _cache_name self;
     _ros_root := _ros_root self; _ros_package_path := _ros_package_path self;
     _package_paths := _package_paths self; _manifests := _manifests self;
     _depends_cache := _depends_cache self; _rosdeps_cache := c;
     _location_cache := _location_cache self |}.

Definition set_location_cache (self : ManifestManager) (c : gmap string string) :=
  {| _manifest_name := _manifest_name self; _cache_name := _cache_name self;
     _ros_root := _ros_root self; _ros_package_path := _ros_package_path self;
     _package_paths := _package_paths self; _manifests := _manifests self;
     _depends_cache := _depends_cache self; _rosdeps_cache := _rosdeps_cache self;
     _location_cache := Some c |}.

(** A method: the result and the instance state afterwards. *)
Definition M (A : Type) : Type := ManifestManager → result A * ManifestManager.

Definition ret {A} (a : A) : M A := λ self, (Ok a, self).
Definition raise {A} (e : exn) : M A := λ self, (Raise e, self).
Definition bind {A B} (m : M A) (k : A → M B) : M B :=
  λ self, match m self with
          | (Ok a, self') => k a self'
          | (Raise e, self') => (Raise e, self')
          end.

(** A method whose recursion is bounded by fuel: [None] when it is used up. *)
Definition MF (A : Type) : Type := ManifestManager → option (result A * ManifestManager).

Definition bindF {A B} (m : MF A) (k : A → MF B) : MF B :=
  λ self, match m self with
          | None => None
          | Some (Ok a, self') => k a self'
          | Some (Raise e, self') => Some (Raise e, self')
          end.
Definition liftF {A} (m : M A) : MF A := λ self, Some (m self).

Notation "'do' x <- m ; k" := (bind m (λ x, k))
  (at level 10, x name, m at level 100, k at level 200).
Notation "'doF' x <- m ; k" := (bindF m (λ x, k))
  (at level 10, x name, m at level 100, k at level 200).

Section Manager.
Context (w : World).

(** [ManifestManager.__init__], with both overrides given. *)
Definition init (manifest_name cache_name ros_root ros_package_path : string)
  : ManifestManager :=
  {| _manifest_name := manifest_name; _cache_name := cache_name;
     _ros_root := ros_root; _ros_package_path := ros_package_path;
     _package_paths := compute_package_paths w ros_root ros_package_path;
     _manifests := ∅; _depends_cache := ∅; _rosdeps_cache := ∅;
     _location_cache := None |}.

(** The crawl of [_update_location_cache]: one [list_by_path] per path,
    all into the same dictionary. *)
Definition crawl (manifest_name : string) (paths : list string)
    (cache : gmap string string) : gmap string string :=
  foldl (λ cache path, (list_by_path w manifest_name path cache).2) cache paths.

Definition _update_location_cache : M unit := λ self,
  match _location_cache self with
  | Some _ => (Ok (), self)
  | None =>
      if bool_decide (_package_paths self = []) then (Ok (), set_location_cache self ∅)
      else
        match _read_rospack_cache w (_cache_name self) ∅
                (_ros_root self) (_ros_package_path self) with
        | (Raise e, cache) => (Raise e, set_location_cache self cache)
        | (Ok true, cache) => (Ok (), set_location_cache self cache)
        | (Ok false, cache) =>
            (Ok (), set_location_cache self
                      (crawl (_manifest_name self)
                         (compute_package_paths w (_ros_root self) (_ros_package_path self))
                         cache))
        end
  end.

(** The dictionary behind [self._location_cache] once it is set. *)
Definition location_cache (self : ManifestManager) : gmap string string :=
  default ∅ (_location_cache self).

(** [ManifestManager.list] *)
Definition list_ : M (list string) :=
  do _ <- _update_location_cache;
  λ self, (Ok (elements (dom (location_cache self))), self).

Definition get_path (name : string) : M string :=
  do _ <- _update_location_cache;
  λ self, match location_cache self !! name with
          | None => (Raise (ResourceNotFound (PyStr name)), self)
          | Some p => (Ok p, self)
          end.

Definition _load_manifest (name : string) : M Manifest :=
  do p <- get_path name;
  λ self, match parse_manifest_file w p (_manifest_name self) with
          | Raise e => (Raise e, self)
          | Ok retval => (Ok retval, set_manifests self (<[name := retval]> (_manifests self)))
          end.

Definition get_manifest (name : string) : M Manifest := λ self,
  match _manifests self !! name with
  | Some m => (Ok m, self)
  | None => _load_manifest name self
  end.

(** [s.update(r)] for the set bound to [self._depends_cache[name]]. *)
Definition depends_update (name : string) (r : list string) : M unit := λ self,
  (Ok (), set_depends_cache self
            (<[name := default ∅ (_depends_cache self !! name) ∪ list_to_set r]>
               (_depends_cache self))).

(** [for p in names: s.update(self.get_depends(p, implicit))], with
    the recursive call an argument. *)
Fixpoint depends_loop (rec : string → MF (list string)) (name : string)
    (names : list string) : MF unit :=
  match names with
  | [] => liftF (ret ())
  | p :: rest =>
      doF r <- rec p;
      doF _ <- liftF (depends_update name r);
      depends_loop rec name rest
  end.

(** The [else] branch of [get_depends] ([implicit] true). *)
Fixpoint get_depends_implicit (fuel : nat) (name : string) : MF (list string) :=
  match fuel with
  | 0 => λ _, None
  | S fuel' => λ self,
      match _depends_cache self !! name with
      | Some s => Some (Ok (elements s), self)
      | None =>
          (doF m <- liftF (get_manifest name);
           let names := depends m in
           doF _ <- (λ self, Some (Ok (), set_depends_cache self
                                            (<[name := ∅]> (_depends_cache self))));
           doF _ <- depends_loop (get_depends_implicit fuel') name names;
           doF _ <- liftF (depends_update name names);
           λ self, Some (Ok (elements (default ∅ (_depends_cache self !! name))), self))
            self
      end
  end.

Definition get_depends (fuel : nat) (name : string) (implicit : bool) : MF (list string) :=
  if negb implicit then
    liftF (do m <- get_manifest name; ret (depends m))
  else get_depends_implicit fuel name.

End Manager.

(** ** [RosPack] and [RosStack] *)

Section Resolvers.
Context (w : World).

Definition RosPack (ros_root ros_package_path : string) : ManifestManager :=
  init w MANIFEST_FILE "rospack_cache" ros_root ros_package_path.

Definition RosStack (ros_root ros_package_path : string) : ManifestManager :=
  init w STACK_FILE "rosstack_cache" ros_root ros_package_path.

(** [s.update(r)] for the set bound to [self._rosdeps_cache[package]]. *)
Definition rosdeps_update (package : string) (r : list string) : M unit := λ self,
  (Ok (), set_rosdeps_cache self
            (<[package := default ∅ (_rosdeps_cache self !! package) ∪ list_to_set r]>
               (_rosdeps_cache self))).

(** [get_rosdeps(package, implicit=False)] *)
Definition get_rosdeps_direct (package : string) : M (list string) :=
  do m <- get_manifest w package; ret (rosdeps m).

(** [for p in packages: s.update(self.get_rosdeps(p, implicit=False))] *)
Fixpoint rosdeps_loop (package : string) (packages : list string) : M unit :=
  match packages with
  | [] => ret ()
  | p :: rest =>
      do r <- get_rosdeps_direct p;
      do _ <- rosdeps_update package r;
      rosdeps_loop package rest
  end.

Definition _implicit_rosdeps (fuel : nat) (package : string) : MF (list string) := λ self,
  match _rosdeps_cache self !! package with
  | Some s => Some (Ok (elements s), self)
  | None =>
      (doF _ <- (λ self, Some (Ok (), set_rosdeps_cache self
                                        (<[package := ∅]> (_rosdeps_cache self))));
       doF packages <- get_depends w fuel package true;
       doF _ <- liftF (rosdeps_loop package packages);
       doF m <- liftF (get_manifest w package);
       doF _ <- liftF (rosdeps_update package (rosdeps m));
       λ self, Some (Ok (elements (default ∅ (_rosdeps_cache self !! package))), self))
        self
  end.

Definition get_rosdeps (fuel : nat) (package : string) (implicit : bool)
  : MF (list string) :=
  if implicit then _implicit_rosdeps fuel package
  else liftF (get_rosdeps_direct package).

(** The [while] loop of [stack_of]; falling out of it returns [None]. *)
Fixpoint stack_of_loop (fuel : nat) (d : string) : option (option string) :=
  match fuel with
  | 0 => None
  | S fuel' =>
      if bool_decide (d ≠ "") && bool_decide (PosixPath.dirname d ≠ d) then
        let stack_file := PosixPath.join d STACK_FILE in
        if path_exists w stack_file then Some (Some (PosixPath.basename d))
        else stack_of_loop fuel' (PosixPath.dirname d)
      else Some None
  end.

Definition stack_of (fuel : nat) (package : string) : MF (option string) :=
  doF d <- liftF (get_path w package);
  λ self, match stack_of_loop fuel d with
          | None => None
          | Some r => Some (Ok r, self)
          end.

(** [RosStack.packages_of] *)
Definition packages_of (stack : string) : M (list string) :=
  do p <- get_path w stack;
  ret (list_by_path w MANIFEST_FILE p ∅).1.

End Resolvers.

(** ** Stack versions *)

Definition is_paren (a : ascii) : bool :=
  bool_decide (a = "("%char) || bool_decide (a = ")"%char).

Definition is_newline (a : ascii) : bool := bool_decide (a = "010"%char).

(** The loop of [_get_cmake_version] over [text.split('\n')]; the
    function returns [None] when no line matches. *)
Fixpoint cmake_version_lines (lines : list string) : result (option string) :=
  match lines with
  | [] => Ok None
  | l :: rest =>
      if Str.startswith "rosbuild_make_distribution" (Str.strip l) then
        match Str.split is_paren (Str.strip l) with
        | _ :: version :: _ =>
            if bool_decide (version ≠ "") then Ok (Some version)
            else Raise (ValueError "cannot parse version number in CMakeLists.txt")
        | _ => Raise (ValueError "couldn't find version number in CMakeLists.txt")
        end
      else cmake_version_lines rest
  end.

Definition _get_cmake_version (text : string) : result (option string) :=
  cmake_version_lines (Str.split is_newline text).

(** [if m.version] *)
Definition truthy (v : option string) : bool :=
  match v with
  | Some s => bool_decide (s ≠ "")
  | None => false
  end.

(** The second half of [get_stack_version_by_dir]: [read_file] is
    [Some] exactly when [os.path.isfile(cmake_filename)] holds. *)
Definition cmake_version_by_dir (w : World) (stack_dir : string) : result (option string) :=
  let cmake_filename := PosixPath.join stack_dir "CMakeLists.txt" in
  match read_file w cmake_filename with
  | Some text =>
      match _get_cmake_version text with
      | Raise (ValueError _) => Ok None
      | r => r
      end
  | None => Ok None
  end.

Definition get_stack_version_by_dir (w : World) (stack_dir : string) : result (option string) :=
  let manifest_filename := PosixPath.join stack_dir STACK_FILE in
  if isfile w manifest_filename then
    match parse_manifest_file w stack_dir STACK_FILE with
    | Raise e => Raise e
    | Ok m =>
        if truthy (version m) then Ok (version m)
        else cmake_version_by_dir w stack_dir
    end
  else cmake_version_by_dir w stack_dir.

(** [RosStack.get_stack_version] *)
Definition get_stack_version (w : World) (stack : string) : M (option string) :=
  do p <- get_path w stack;
  λ self, (get_stack_version_by_dir w p, self).

(** ** [expand_to_packages] *)

(** [type(names) in (tuple, list)], and the elements in that case. *)
Definition sequence_items (names : pyval) : option (list pyval) :=
  match names with
  | PyList l | PyTuple l => Some l
  | _ => None
  end.

(** [name in d] for a dictionary with string keys, and for its key
    view (Python 3): a value that cannot be hashed raises. *)
Definition dict_contains {A} (d : gmap string A) (name : pyval) : result bool :=
  match name with
  | PyStr s => Ok (bool_decide (is_Some (d !! s)))
  | _ => if hashable name then Ok false else Raise (TypeError "unhashable type")
  end.

Definition keys_contain (keys : list string) (name : pyval) : result bool :=
  match name with
  | PyStr s => Ok (bool_decide (s ∈ keys))
  | _ => if hashable name then Ok false else Raise (TypeError "unhashable type")
  end.

(** [get_path(n)] for a value that is not a string: the index is
    built, and [n in self._location_cache] is false or raises. *)
Definition get_path_other (w : World) (n : pyval) : M (list string) :=
  do _ <- _update_location_cache w;
  λ self, match dict_contains (location_cache self) n with
          | Raise e => (Raise e, self)
          | Ok _ => (Raise (ResourceNotFound n), self)
          end.

(** [rosstack.packages_of(n)] for any value [n]. *)
Definition packages_of_value (w : World) (n : pyval) : M (list string) :=
  match n with
  | PyStr s => packages_of w s
  | _ => get_path_other w n
  end.

(** The two resolver instances are threaded as a pair. *)
Definition M2 (A : Type) : Type :=
  ManifestManager * ManifestManager → result A * (ManifestManager * ManifestManager).

(** The [for n in names] loop; [valid] and [invalid] are the lists
    being built. *)
Fixpoint expand_loop (w : World) (package_list : list string) (names : list pyval)
    (valid invalid : list pyval) : M2 (list pyval * list pyval) :=
  λ '(rospack, rosstack),
  match names with
  | [] => (Ok (valid, invalid), (rospack, rosstack))
  | n :: rest =>
      match keys_contain package_list n with
      | Raise e => (Raise e, (rospack, rosstack))
      | Ok false =>
          match packages_of_value w n rosstack with
          | (Ok ps, rosstack') =>
              expand_loop w package_list rest (valid ++ (PyStr <$> ps)) invalid
                (rospack, rosstack')
          | (Raise (ResourceNotFound _), rosstack') =>
              expand_loop w package_list rest valid (invalid ++ [n]) (rospack, rosstack')
          | (Raise e, rosstack') => (Raise e, (rospack, rosstack'))
          end
      | Ok true => expand_loop w package_list rest (valid ++ [n]) invalid (rospack, rosstack)
      end
  end.

Definition expand_to_packages (w : World) (names : pyval) : M2 (list pyval * list pyval) :=
  λ '(rospack, rosstack),
  match sequence_items names with
  | None => (Raise (ValueError "names must be a list of strings"), (rospack, rosstack))
  | Some items =>
      match list_ w rospack with
      | (Raise e, rospack') => (Raise e, (rospack', rosstack))
      | (Ok package_list, rospack') =>
          expand_loop w package_list items [] [] (rospack', rosstack)
      end
  end.

(** ** [get_package_name] *)

(** [os.path.realpath]: the file system of the model has no symbolic
    link, so the canonical path is the absolute, normalized one. *)
Definition realpath (w : World) (p : string) : string := PosixPath.abspath (cwd w) p.

(** The [while] loop of [get_package_name]: the value of [path] when
    the loop is left. *)
Fixpoint package_name_loop (w : World) (fuel : nat) (path parent : string) : option string :=
  match fuel with
  | 0 => None
  | S fuel' =>
      if negb (path_exists w (PosixPath.join path MANIFEST_FILE))
         && bool_decide (parent ≠ path)
      then package_name_loop w fuel' parent (PosixPath.dirname parent)
      else Some path
  end.

Definition get_package_name (w : World) (fuel : nat) (path : string)
  : option (option string) :=
  let parent := PosixPath.dirname (realpath w path) in
  match package_name_loop w fuel path parent with
  | None => None
  | Some path' =>
      if path_exists w (PosixPath.join path' MANIFEST_FILE)
      then Some (Some (PosixPath.basename (PosixPath.abspath (cwd w) path')))
      else Some None
  end.

(** * Properties *)

(** ** The index: what a crawl adds to a dictionary *)

Section CrawlFacts.
Context (w : World) (manifest_name : string).

Local Abbreviation visit := (list_by_path_visit manifest_name).

(** The names the loop appends and the entries it writes do not depend
    on the dictionary it is given: the entries are laid over it. *)
Lemma foldl_visit_cache ys resources (cache : gmap string string) :
  foldl visit (resources, cache) ys =
    ((foldl visit (resources, ∅) ys).1, (foldl visit (resources, ∅) ys).2 ∪ cache).
Proof.
  revert resources cache.
  induction ys as [|[[d dirs] files] ys IH]; intros resources cache; simpl.
  - by rewrite (left_id_L ∅ (∪)).
  - repeat case_bool_decide; try apply IH.
    rewrite (IH _ (<[_:=_]> cache)), (IH _ (<[_:=_]> ∅)). simpl. f_equal.
    rewrite <-(assoc_L (∪)). f_equal.
    by rewrite <-insert_union_l, (left_id_L ∅ (∪)).
Qed.

Lemma list_by_path_cache path (cache : gmap string string) :
  list_by_path w manifest_name path cache =
    ((list_by_path w manifest_name path ∅).1,
     (list_by_path w manifest_name path ∅).2 ∪ cache).
Proof. unfold list_by_path. apply foldl_visit_cache. Qed.

(** A name the crawl of [path] records is rebound, whatever the
    dictionary held for it; any other name keeps its entry. *)
Lemma list_by_path_found path (cache : gmap string string) name d :
  (list_by_path w manifest_name path ∅).2 !! name = Some d →
  (list_by_path w manifest_name path cache).2 !! name = Some d.
Proof.
  intros H. rewrite list_by_path_cache. simpl.
  by apply lookup_union_Some_l.
Qed.

Lemma list_by_path_not_found path (cache : gmap string string) name :
  (list_by_path w manifest_name path ∅).2 !! name = None →
  (list_by_path w manifest_name path cache).2 !! name = cache !! name.
Proof.
  intros H. rewrite list_by_path_cache. simpl.
  by apply lookup_union_r.
Qed.

Lemma crawl_not_found paths (cache : gmap string string) name :
  (∀ p, p ∈ paths → (list_by_path w manifest_name p ∅).2 !! name = None) →
  crawl w manifest_name paths cache !! name = cache !! name.
Proof.
  unfold crawl.
  revert cache. induction paths as [|p paths IH]; intros cache H; simpl; [done|].
  rewrite IH.
  - apply list_by_path_not_found, H. by left.
  - intros q Hq. apply H. by right.
Qed.

Lemma crawl_app paths1 paths2 (cache : gmap string string) :
  crawl w manifest_name (paths1 ++ paths2) cache
  = crawl w manifest_name paths2 (crawl w manifest_name paths1 cache).
Proof. unfold crawl. by rewrite foldl_app. Qed.

(** The root that decides a name is the last one, in crawl order, in
    which the name is found. *)
Lemma crawl_last_found before B after (cache : gmap string string) name d :
  (list_by_path w manifest_name B ∅).2 !! name = Some d →
  (∀ p, p ∈ after → (list_by_path w manifest_name p ∅).2 !! name = None) →
  crawl w manifest_name (before ++ B :: after) cache !! name = Some d.
Proof.
  intros HB Hafter.
  rewrite crawl_app. change (B :: after) with ([B] ++ after). rewrite crawl_app.
  rewrite crawl_not_found by done.
  simpl. by apply list_by_path_found.
Qed.

End CrawlFacts.

(** ** The index of an instance *)

Section IndexFacts.
Context (w : World).

(** The dictionary [self._location_cache] holds once
    [_update_location_cache] has run. *)
Definition index_of (self : ManifestManager) : gmap string string :=
  location_cache (_update_location_cache w self).2.

Lemma update_location_cache_built self c :
  _location_cache self = Some c → _update_location_cache w self = (Ok (), self).
Proof. intros H. unfold _update_location_cache. by rewrite H. Qed.

(** With no usable snapshot the index is the crawl of the configured
    paths, in their order, over what the reader left in the
    dictionary. *)
Lemma update_location_cache_crawl self c0 :
  _location_cache self = None →
  _package_paths self ≠ [] →
  _read_rospack_cache w (_cache_name self) ∅ (_ros_root self) (_ros_package_path self)
    = (Ok false, c0) →
  _update_location_cache w self
  = (Ok (), set_location_cache self
              (crawl w (_manifest_name self)
                 (compute_package_paths w (_ros_root self) (_ros_package_path self)) c0)).
Proof.
  intros Hnone Hpaths Hread. unfold _update_location_cache.
  rewrite Hnone, Hread. by rewrite bool_decide_eq_false_2.
Qed.

Lemma get_path_crawl self c0 name :
  _location_cache self = None →
  _package_paths self ≠ [] →
  _read_rospack_cache w (_cache_name self) ∅ (_ros_root self) (_ros_package_path self)
    = (Ok false, c0) →
  (get_path w name self).1
  = match crawl w (_manifest_name self)
            (compute_package_paths w (_ros_root self) (_ros_package_path self)) c0
          !! name with
    | Some p => Ok p
    | None => Raise (ResourceNotFound (PyStr name))
    end.
Proof.
  intros Hnone Hpaths Hread. unfold get_path, bind.
  rewrite (update_location_cache_crawl _ c0) by done.
  unfold location_cache. simpl. by destruct (_ !! name).
Qed.

End IndexFacts.

(** ** Precedence between roots *)

Module Precedence.

(** Two roots [/a] and [/b], each with a package [pkgX]; [/a] is
    crawled first. *)
Definition package : node := Dir [("manifest.xml", File "<package/>")].

Definition fs : node :=
  Dir [("a", Dir [("pkgX", package); ("pkgY", package)]);
       ("b", Dir [("pkgX", package)])].

Definition world : World :=
  {| fs_root := fs; cwd := "/"; get_ros_home := "/home/user/.ros";
     compute_package_paths := λ _ _, ["/a"; "/b"];
     parse_manifest_file := λ _ _, Ok {| version := None; depends := []; rosdeps := [] |} |}.

Definition rospack : ManifestManager := RosPack world "/a" "/b".

End Precedence.

(** C1, as the code has it: when the index is built by the crawl, a name
    found in root [A] and in a root [B] crawled after [A] (and in no root
    crawled after [B]) resolves to the directory found under [B]; the
    entry written for the earlier root is overwritten. *)
Theorem later_root_overrides (w : World) (self : ManifestManager)
    (A B : string) (before between after : list string) (name dA dB : string) c0 :
  _location_cache self = None →
  _package_paths self ≠ [] →
  _read_rospack_cache w (_cache_name self) ∅ (_ros_root self) (_ros_package_path self)
    = (Ok false, c0) →
  compute_package_paths w (_ros_root self) (_ros_package_path self)
    = before ++ A :: between ++ B :: after →
  (list_by_path w (_manifest_name self) A ∅).2 !! name = Some dA →
  (list_by_path w (_manifest_name self) B ∅).2 !! name = Some dB →
  (∀ p, p ∈ after → (list_by_path w (_manifest_name self) p ∅).2 !! name = None) →
  (get_path w name self).1 = Ok dB.
Proof.
  intros Hnone Hpaths Hread Horder _ HB Hafter.
  rewrite (get_path_crawl w self c0) by done.
  rewrite Horder.
  replace (before ++ A :: between ++ B :: after)
    with ((before ++ A :: between) ++ B :: after) by by rewrite <-app_assoc.
  by rewrite (crawl_last_found w _ _ B after c0 name dB).
Qed.

Lemma later_root_overrides_witness :
  (get_path Precedence.world "pkgX" Precedence.rospack).1 = Ok "/b/pkgX".
Proof.
  apply (later_root_overrides Precedence.world Precedence.rospack
           "/a" "/b" [] [] [] "pkgX" "/a/pkgX" "/b/pkgX" ∅).
  - reflexivity.
  - discriminate.
  - reflexivity.
  - reflexivity.
  - vm_compute. reflexivity.
  - vm_compute. reflexivity.
  - intros p Hp. by apply elem_of_nil in Hp.
Defined.

(** C1 as stated fails: [/a] is crawled before [/b], both hold [pkgX],
    and [get_path] does not resolve to the directory under [/a]. *)
Lemma earlier_root_does_not_win :
  compute_package_paths Precedence.world "/a" "/b" = ["/a"; "/b"]
  ∧ (list_by_path Precedence.world MANIFEST_FILE "/a" ∅).2 !! "pkgX" = Some "/a/pkgX"
  ∧ (list_by_path Precedence.world MANIFEST_FILE "/b" ∅).2 !! "pkgX" = Some "/b/pkgX"
  ∧ (get_path Precedence.world "pkgX" Precedence.rospack).1 = Ok "/b/pkgX"
  ∧ (get_path Precedence.world "pkgX" Precedence.rospack).1 ≠ Ok "/a/pkgX".
Proof.
  repeat split; try (vm_compute; reflexivity).
  vm_compute. discriminate.
Qed.

(** ** The cache reader *)

Section ReaderFacts.
Context (ros_root ros_package_path : string).

(** A line (as the loop sees it, its last character dropped) that
    names a path. *)
Definition is_data_line (l : string) : bool :=
  match l with
  | EmptyString => false
  | String c _ => negb (bool_decide (c = "#"%char))
  end.

Definition data_lines (lines : list string) : list string :=
  filter (λ l, is_data_line l = true) (Str.drop_last <$> lines).

(** A header line at which the loop returns [False]. *)
Definition rejects (l : string) : bool :=
  if Str.startswith "#ROS_ROOT=" l then
    negb (bool_decide (Str.drop (String.length "#ROS_ROOT=") l = ros_root))
  else if Str.startswith "#ROS_PACKAGE_PATH=" l then
    negb (bool_decide (Str.drop (String.length "#ROS_PACKAGE_PATH=") l = ros_package_path))
  else false.

Lemma rejects_header l : rejects l = true → is_data_line l = false.
Proof.
  unfold rejects. destruct l as [|c l]; [done|]. simpl.
  destruct (decide ("#"%char = c)) as [<-|Hne]; [done|].
  simpl. done.
Qed.

Lemma read_cache_lines_reject l0 rest rv ppv (cache : gmap string string) :
  rejects (Str.drop_last l0) = true →
  read_cache_lines ros_root ros_package_path (l0 :: rest) rv ppv cache = (false, cache).
Proof.
  intros H. pose proof (rejects_header _ H) as Hd.
  cbn [read_cache_lines]. unfold rejects in H.
  destruct (Str.drop_last l0) as [|c l] eqn:E; [done|].
  cbn [is_data_line] in Hd. apply negb_false_iff in Hd. rewrite Hd.
  destruct (Str.startswith "#ROS_ROOT=" (String c l)); [by rewrite H|].
  destruct (Str.startswith "#ROS_PACKAGE_PATH=" (String c l)); [by rewrite H|done].
Qed.

Lemma read_cache_lines_data l0 rest rv ppv (cache : gmap string string) :
  is_data_line (Str.drop_last l0) = true →
  read_cache_lines ros_root ros_package_path (l0 :: rest) rv ppv cache
  = read_cache_lines ros_root ros_package_path rest rv ppv
      (<[PosixPath.basename (Str.drop_last l0) := Str.drop_last l0]> cache).
Proof.
  intros H. cbn [read_cache_lines]. destruct (Str.drop_last l0) as [|c l]; [done|].
  cbn [is_data_line] in H. apply negb_true_iff in H. by rewrite H.
Qed.

(** The reader only ever adds entries, and what it adds are the data
    lines of the file under their final path components. *)
Lemma read_cache_lines_entries lines rv ppv (cache : gmap string string) b cache' :
  read_cache_lines ros_root ros_package_path lines rv ppv cache = (b, cache') →
  (∀ k, is_Some (cache !! k) → is_Some (cache' !! k))
  ∧ (∀ k p, cache' !! k = Some p →
       cache !! k = Some p ∨ (p ∈ data_lines lines ∧ PosixPath.basename p = k)).
Proof.
  revert rv ppv cache. induction lines as [|l0 lines IH]; intros rv ppv cache H.
  - simpl in H. injection H as _ <-. auto.
  - assert (Hsub : ∀ k p, p ∈ data_lines lines ∧ PosixPath.basename p = k →
              p ∈ data_lines (l0 :: lines) ∧ PosixPath.basename p = k).
    { intros k p [Hp Hk]. split; [|done]. unfold data_lines in *.
      rewrite fmap_cons, filter_cons. case_decide; [by right|done]. }
    destruct (is_data_line (Str.drop_last l0)) eqn:Hdata.
    + rewrite read_cache_lines_data in H by done.
      apply IH in H as [H1 H2]. split.
      * intros k Hk. apply H1. destruct (decide (PosixPath.basename (Str.drop_last l0) = k))
          as [->|Hne]; [by rewrite lookup_insert_eq|by rewrite lookup_insert_ne].
      * intros k p Hp. apply H2 in Hp as [Hp|Hp]; [|right; by apply Hsub].
        destruct (decide (PosixPath.basename (Str.drop_last l0) = k)) as [<-|Hne].
        -- rewrite lookup_insert_eq in Hp. injection Hp as <-. right. split; [|done].
           unfold data_lines. rewrite fmap_cons, filter_cons.
           rewrite decide_True by done. by left.
        -- rewrite lookup_insert_ne in Hp by done. by left.
    + cbn [read_cache_lines] in H. destruct (Str.drop_last l0) as [|c l] eqn:E.
      * apply IH in H as [H1 H2]. split; [done|].
        intros k p Hp. apply H2 in Hp as [Hp|Hp]; [by left|right; by apply Hsub].
      * cbn [is_data_line] in Hdata. apply negb_false_iff in Hdata. rewrite Hdata in H.
        repeat match type of H with
               | (if ?c then _ else _) = _ => destruct c
               end;
          try (injection H as _ <-; by auto);
          (apply IH in H as [H1 H2]; split; [done|];
           intros k p Hp; apply H2 in Hp as [Hp|Hp]; [by left|right; by apply Hsub]).
Qed.

(** Lines that do not reject are read through: the loop goes on with
    the entries of their data lines added. *)
Lemma read_cache_lines_prefix pre rest rv ppv (cache : gmap string string) :
  Forall (λ l0, rejects (Str.drop_last l0) = false) pre →
  ∃ rv' ppv' cache1,
    read_cache_lines ros_root ros_package_path (pre ++ rest) rv ppv cache
    = read_cache_lines ros_root ros_package_path rest rv' ppv' cache1
    ∧ (∀ k, is_Some (cache !! k) → is_Some (cache1 !! k)).
Proof.
  intros Hpre. revert rv ppv cache.
  induction Hpre as [|l0 pre Hl0 _ IH]; intros rv ppv cache.
  - by exists rv, ppv, cache.
  - rewrite <-app_comm_cons.
    destruct (is_data_line (Str.drop_last l0)) eqn:Hdata.
    + rewrite read_cache_lines_data by done.
      destruct (IH rv ppv (<[PosixPath.basename (Str.drop_last l0) := Str.drop_last l0]> cache))
        as (rv' & ppv' & cache1 & Heq & Hmono).
      exists rv', ppv', cache1. split; [done|].
      intros k Hk. apply Hmono.
      destruct (decide (PosixPath.basename (Str.drop_last l0) = k))
        as [->|Hne]; [by rewrite lookup_insert_eq|by rewrite lookup_insert_ne].
    + cbn [read_cache_lines]. unfold rejects in Hl0.
      destruct (Str.drop_last l0) as [|c l] eqn:E.
      * apply IH.
      * cbn [is_data_line] in Hdata. apply negb_false_iff in Hdata. rewrite Hdata.
        destruct (Str.startswith "#ROS_ROOT=" (String c l)).
        { rewrite Hl0. apply IH. }
        destruct (Str.startswith "#ROS_PACKAGE_PATH=" (String c l)).
        { rewrite Hl0. apply IH. }
        apply IH.
Qed.

(** A file with a header line that rejects is rejected, wherever the
    line stands. *)
Lemma read_cache_lines_rejected lines l0 rv ppv (cache : gmap string string) :
  l0 ∈ lines → rejects (Str.drop_last l0) = true →
  (read_cache_lines ros_root ros_package_path lines rv ppv cache).1 = false.
Proof.
  intros Hin Hrej. revert rv ppv cache.
  induction lines as [|a lines IH]; intros rv ppv cache; [by apply elem_of_nil in Hin|].
  destruct (rejects (Str.drop_last a)) eqn:Ha.
  { by rewrite read_cache_lines_reject. }
  apply elem_of_cons in Hin as [->|Hin]; [congruence|].
  destruct (read_cache_lines_prefix [a] lines rv ppv cache) as (rv' & ppv' & c1 & Heq & _).
  { by constructor. }
  simpl app in Heq. rewrite Heq. by apply IH.
Qed.

End ReaderFacts.

Lemma read_file_exists (w : World) p text : read_file w p = Some text → path_exists w p = true.
Proof.
  unfold read_file, path_exists. destruct (resolve w p) as [[]|]; [|done..].
  intros _. by apply bool_decide_eq_true_2.
Qed.

Module StaleSnapshot.

Definition package : node := Dir [("manifest.xml", File "<package/>")].

(** One root [/a] holding [pkgY]; the snapshot in the cache home lists
    [/opt/old/ghost], which is in no root. *)
Definition fs (snapshot : string) : node :=
  Dir [("a", Dir [("pkgY", package)]);
       ("home", Dir [("user", Dir [(".ros", Dir [("rospack_cache", File snapshot)])])])].

Definition world (snapshot : string) : World :=
  {| fs_root := fs snapshot; cwd := "/"; get_ros_home := "/home/user/.ros";
     compute_package_paths := λ _ _, ["/a"];
     parse_manifest_file := λ _ _, Ok {| version := None; depends := []; rosdeps := [] |} |}.

Definition newline : string := String "010"%char "".

(** No header line at all. *)
Definition headerless : string := "/opt/old/ghost" +:+ newline.

(** A data line, then a [#ROS_ROOT=] line recorded for another root. *)
Definition mismatching : string :=
  "/opt/old/ghost" +:+ newline +:+ "#ROS_ROOT=/other" +:+ newline
  +:+ "#ROS_PACKAGE_PATH=" +:+ newline.

Definition rospack (snapshot : string) : ManifestManager := RosPack (world snapshot) "/a" "".

End StaleSnapshot.

(** C6: when the reader rejects a snapshot after having read a data
    line, it returns [False] and the entry of that data line is in the
    caller's dictionary; [_update_location_cache] crawls over that same
    dictionary, so the entry is in the final index whenever no
    configured path holds a resource of that name. *)
Theorem rejected_snapshot_entries_remain (w : World) (self : ManifestManager)
    (text : string) (pre post : list string) (l0 : string) :
  _location_cache self = None →
  _package_paths self ≠ [] →
  read_file w (PosixPath.join (get_ros_home w) (_cache_name self)) = Some text →
  readlines text = pre ++ l0 :: post →
  Forall (λ l, rejects (_ros_root self) (_ros_package_path self) (Str.drop_last l) = false) pre →
  is_data_line (Str.drop_last l0) = true →
  (read_cache_lines (_ros_root self) (_ros_package_path self)
     (readlines text) false false ∅).1 = false →
  ∃ cache' p,
    _read_rospack_cache w (_cache_name self) ∅ (_ros_root self) (_ros_package_path self)
      = (Ok false, cache')
    ∧ cache' !! PosixPath.basename (Str.drop_last l0) = Some p
    ∧ p ∈ data_lines (readlines text)
    ∧ ((∀ q, q ∈ compute_package_paths w (_ros_root self) (_ros_package_path self) →
             (list_by_path w (_manifest_name self) q ∅).2
               !! PosixPath.basename (Str.drop_last l0) = None) →
       (get_path w (PosixPath.basename (Str.drop_last l0)) self).1 = Ok p).
Proof.
  intros Hnone Hpaths Hfile Hlines Hpre Hdata Hrej.
  destruct (read_cache_lines (_ros_root self) (_ros_package_path self)
              (readlines text) false false ∅) as [b cache'] eqn:Hread.
  simpl in Hrej. subst b.
  assert (Hreader : _read_rospack_cache w (_cache_name self) ∅
                      (_ros_root self) (_ros_package_path self) = (Ok false, cache')).
  { unfold _read_rospack_cache. rewrite (read_file_exists _ _ _ Hfile), Hfile. simpl.
    by rewrite Hread. }
  pose proof (read_cache_lines_entries _ _ _ _ _ _ _ _ Hread) as [_ Hfrom].
  rewrite Hlines in Hread.
  destruct (read_cache_lines_prefix (_ros_root self) (_ros_package_path self)
              pre (l0 :: post) false false ∅ Hpre) as (rv & ppv & cache1 & Heq & _).
  rewrite Heq, read_cache_lines_data in Hread by done.
  apply read_cache_lines_entries in Hread as [Hmono _].
  destruct (Hmono (PosixPath.basename (Str.drop_last l0))) as [p Hp].
  { by rewrite lookup_insert_eq. }
  exists cache', p. split_and!; [done|done| |].
  - destruct (Hfrom _ _ Hp) as [Hempty|[Hin _]]; [by rewrite lookup_empty in Hempty|done].
  - intros Hcrawl. rewrite (get_path_crawl w self cache') by done.
    by rewrite crawl_not_found, Hp.
Qed.

Lemma rejected_snapshot_entries_remain_witness :
  ∃ cache' p,
    _read_rospack_cache (StaleSnapshot.world StaleSnapshot.headerless) "rospack_cache" ∅ "/a" ""
      = (Ok false, cache')
    ∧ cache' !! "ghost" = Some p
    ∧ p ∈ data_lines (readlines StaleSnapshot.headerless)
    ∧ ((∀ q, q ∈ ["/a"] →
             (list_by_path (StaleSnapshot.world StaleSnapshot.headerless) MANIFEST_FILE q ∅).2
               !! "ghost" = None) →
       (get_path (StaleSnapshot.world StaleSnapshot.headerless) "ghost"
          (StaleSnapshot.rospack StaleSnapshot.headerless)).1 = Ok p).
Proof.
  apply (rejected_snapshot_entries_remain
           (StaleSnapshot.world StaleSnapshot.headerless)
           (StaleSnapshot.rospack StaleSnapshot.headerless)
           StaleSnapshot.headerless [] [] ("/opt/old/ghost" +:+ StaleSnapshot.newline)).
  - reflexivity.
  - discriminate.
  - vm_compute. reflexivity.
  - vm_compute. reflexivity.
  - constructor.
  - vm_compute. reflexivity.
  - vm_compute. reflexivity.
Defined.

(** What does hold of a snapshot whose [#ROS_ROOT=] line records another
    root, wherever the line stands: the reader returns [False], and the
    index is the crawl of the configured paths, made over the dictionary
    as the reader left it. *)
Lemma mismatching_root_is_rejected (w : World) (self : ManifestManager)
    (text l0 v : string) :
  _location_cache self = None →
  _package_paths self ≠ [] →
  read_file w (PosixPath.join (get_ros_home w) (_cache_name self)) = Some text →
  l0 ∈ readlines text →
  Str.drop_last l0 = "#ROS_ROOT=" +:+ v →
  v ≠ _ros_root self →
  ∃ c0,
    _read_rospack_cache w (_cache_name self) ∅ (_ros_root self) (_ros_package_path self)
      = (Ok false, c0)
    ∧ index_of w self
      = crawl w (_manifest_name self)
          (compute_package_paths w (_ros_root self) (_ros_package_path self)) c0.
Proof.
  intros Hnone Hpaths Hfile Hin Hl0 Hv.
  assert (Hrej : rejects (_ros_root self) (_ros_package_path self) (Str.drop_last l0) = true).
  { rewrite Hl0. unfold rejects. simpl. by rewrite bool_decide_eq_false_2. }
  pose proof (read_cache_lines_rejected (_ros_root self) (_ros_package_path self)
                _ _ false false ∅ Hin Hrej) as Hfalse.
  destruct (read_cache_lines (_ros_root self) (_ros_package_path self)
              (readlines text) false false ∅) as [b c0] eqn:Hread.
  simpl in Hfalse. subst b. exists c0.
  assert (Hreader : _read_rospack_cache w (_cache_name self) ∅
                      (_ros_root self) (_ros_package_path self) = (Ok false, c0)).
  { unfold _read_rospack_cache. rewrite (read_file_exists _ _ _ Hfile), Hfile. simpl.
    by rewrite Hread. }
  split; [done|]. unfold index_of.
  by rewrite (update_location_cache_crawl w self c0).
Qed.

(** C4 at its failing input: the snapshot's [#ROS_ROOT=] line records
    [/other], the configured root is [/a]; the reader rejects it, no
    configured path holds [ghost], and yet the index resolves [ghost] to
    the path the rejected snapshot lists. *)
Lemma mismatching_snapshot_leaks :
  let w := StaleSnapshot.world StaleSnapshot.mismatching in
  let self := StaleSnapshot.rospack StaleSnapshot.mismatching in
  Str.drop_last <$> readlines StaleSnapshot.mismatching
    = ["/opt/old/ghost"; "#ROS_ROOT=/other"; "#ROS_PACKAGE_PATH="]
  ∧ (_read_rospack_cache w "rospack_cache" ∅ "/a" "").1 = Ok false
  ∧ crawl w MANIFEST_FILE (compute_package_paths w "/a" "") ∅ !! "ghost" = None
  ∧ (get_path w "ghost" self).1 = Ok "/opt/old/ghost".
Proof. repeat split; vm_compute; reflexivity. Qed.

(** ** Stack versions *)

(** The manifest of the stack gives no version: there is no
    [stack.xml], or its [version] is [None] or empty. *)
Definition no_usable_version (w : World) (stack_dir : string) : Prop :=
  isfile w (PosixPath.join stack_dir STACK_FILE) = false
  ∨ ∃ m, parse_manifest_file w stack_dir STACK_FILE = Ok m ∧ truthy (version m) = false.

(** [l.strip().startswith('rosbuild_make_distribution')] *)
Definition declares_version (l : string) : bool :=
  Str.startswith "rosbuild_make_distribution" (Str.strip l).

Lemma cmake_version_lines_skip pre rest :
  Forall (λ l, declares_version l = false) pre →
  cmake_version_lines (pre ++ rest) = cmake_version_lines rest.
Proof.
  induction 1 as [|l pre Hl _ IH]; [done|].
  rewrite <-app_comm_cons. cbn [cmake_version_lines].
  unfold declares_version in Hl. by rewrite Hl.
Qed.

Lemma cmake_version_lines_unparsable l rest :
  declares_version l = true →
  length (Str.split is_paren (Str.strip l)) < 2
  ∨ Str.split is_paren (Str.strip l) !! 1 = Some "" →
  ∃ msg, cmake_version_lines (l :: rest) = Raise (ValueError msg).
Proof.
  intros Hl Harg. cbn [cmake_version_lines]. unfold declares_version in Hl. rewrite Hl.
  destruct (Str.split is_paren (Str.strip l)) as [|x [|version rest']]; [by eexists..|].
  destruct Harg as [Hlen|Hempty]; [simpl in Hlen; lia|].
  simpl in Hempty. injection Hempty as ->.
  rewrite bool_decide_eq_false_2 by (intros H; by apply H). by eexists.
Qed.

Module Unversioned.

(** A stack [/stacks/s] whose manifest has no version and whose
    [CMakeLists.txt] is the given text. *)
Definition fs (cmake : string) : node :=
  Dir [("stacks",
        Dir [("s", Dir [("stack.xml", File "<stack/>"); ("CMakeLists.txt", File cmake)])])].

Definition world (cmake : string) : World :=
  {| fs_root := fs cmake; cwd := "/"; get_ros_home := "/home/user/.ros";
     compute_package_paths := λ _ _, ["/stacks"];
     parse_manifest_file := λ _ _, Ok {| version := None; depends := []; rosdeps := [] |} |}.

Definition empty_argument : string :=
  "cmake_minimum_required(VERSION 2.4.6)" +:+ String "010"%char "rosbuild_make_distribution()".

Definition rosstack (cmake : string) : ManifestManager := RosStack (world cmake) "/stacks" "".

End Unversioned.

(** C5, as the code has it: when the manifest gives no version and the
    first version-declaring statement of [CMakeLists.txt] has an empty
    argument, or no parenthesis at all, [get_stack_version_by_dir]
    returns [None], and so does [get_stack_version] for a stack the index
    locates there; the [ValueError] of [_get_cmake_version] is caught in
    both cases. *)
Theorem unparsable_cmake_version_is_none (w : World) (stack_dir text : string)
    (pre post : list string) (l : string) :
  no_usable_version w stack_dir →
  read_file w (PosixPath.join stack_dir "CMakeLists.txt") = Some text →
  Str.split is_newline text = pre ++ l :: post →
  Forall (λ l', declares_version l' = false) pre →
  declares_version l = true →
  length (Str.split is_paren (Str.strip l)) < 2
  ∨ Str.split is_paren (Str.strip l) !! 1 = Some "" →
  get_stack_version_by_dir w stack_dir = Ok None
  ∧ ∀ self stack,
      (get_path w stack self).1 = Ok stack_dir →
      (get_stack_version w stack self).1 = Ok None.
Proof.
  intros Hmanifest Hfile Hlines Hpre Hl Harg.
  assert (Hcmake : cmake_version_by_dir w stack_dir = Ok None).
  { unfold cmake_version_by_dir, _get_cmake_version. rewrite Hfile, Hlines.
    rewrite cmake_version_lines_skip by done.
    by destruct (cmake_version_lines_unparsable l post Hl Harg) as [msg ->]. }
  assert (Hdir : get_stack_version_by_dir w stack_dir = Ok None).
  { unfold get_stack_version_by_dir.
    destruct Hmanifest as [->|(m & -> & ->)]; [done|].
    by destruct (isfile w _). }
  split; [done|].
  intros self stack Hpath. unfold get_stack_version, bind.
  destruct (get_path w stack self) as [[p|e] self1]; simpl in *; [|done].
  by injection Hpath as ->.
Qed.

Lemma unparsable_cmake_version_is_none_witness :
  let w := Unversioned.world Unversioned.empty_argument in
  get_stack_version_by_dir w "/stacks/s" = Ok None
  ∧ ∀ self stack,
      (get_path w stack self).1 = Ok "/stacks/s" →
      (get_stack_version w stack self).1 = Ok None.
Proof.
  apply (unparsable_cmake_version_is_none (Unversioned.world Unversioned.empty_argument)
           "/stacks/s" Unversioned.empty_argument
           ["cmake_minimum_required(VERSION 2.4.6)"] [] "rosbuild_make_distribution()").
  - right. eexists. split; reflexivity.
  - vm_compute. reflexivity.
  - vm_compute. reflexivity.
  - repeat constructor.
  - vm_compute. reflexivity.
  - right. vm_compute. reflexivity.
Defined.

(** C5 as stated fails: the argument of [rosbuild_make_distribution()]
    is empty, and both the query by directory and the query by stack
    name return [None] instead of raising. *)
Lemma empty_cmake_version_does_not_raise :
  let w := Unversioned.world Unversioned.empty_argument in
  Str.split is_paren "rosbuild_make_distribution()" = ["rosbuild_make_distribution"; ""; ""]
  ∧ (∃ msg, _get_cmake_version Unversioned.empty_argument = Raise (ValueError msg))
  ∧ get_stack_version_by_dir w "/stacks/s" = Ok None
  ∧ (get_stack_version w "s" (Unversioned.rosstack Unversioned.empty_argument)).1 = Ok None
  ∧ ¬ ∃ e, get_stack_version_by_dir w "/stacks/s" = Raise e.
Proof.
  split_and!; try (vm_compute; reflexivity).
  - eexists. vm_compute. reflexivity.
  - intros [e He]. vm_compute in He. discriminate.
Qed.

(** ** Which exceptions the index can raise *)

Section Raises.
Context (w : World).

Lemma read_rospack_cache_raises cache_name (cache : gmap string string) root rpp e cache' :
  _read_rospack_cache w cache_name cache root rpp = (Raise e, cache') →
  ∃ msg, e = IOError msg.
Proof.
  unfold _read_rospack_cache. destruct (negb _); [done|].
  destruct (read_file w _); [by destruct (read_cache_lines _ _ _ _ _ _)|].
  intros [= <- _]. by eexists.
Qed.

Lemma update_location_cache_raises self e self' :
  _update_location_cache w self = (Raise e, self') → ∃ msg, e = IOError msg.
Proof.
  unfold _update_location_cache. destruct (_location_cache self); [done|].
  case_bool_decide; [done|].
  destruct (_read_rospack_cache _ _ _ _ _) as [[[]|e'] cache] eqn:Hread; [done..|].
  intros [= <- _]. by eapply read_rospack_cache_raises.
Qed.

(** After [_update_location_cache] the index is set, whatever the
    outcome. *)
Lemma update_location_cache_sets self :
  ∃ c, _location_cache (_update_location_cache w self).2 = Some c.
Proof.
  unfold _update_location_cache. destruct (_location_cache self) eqn:E; [by eexists|].
  case_bool_decide; [by eexists|].
  destruct (_read_rospack_cache _ _ _ _ _) as [[[]|e'] cache]; by eexists.
Qed.

(** When the index could not be read, it is left empty. *)
Lemma update_location_cache_raise_empty self e self' :
  _update_location_cache w self = (Raise e, self') → location_cache self' = ∅.
Proof.
  unfold _update_location_cache. destruct (_location_cache self); [done|].
  case_bool_decide; [done|].
  destruct (_read_rospack_cache _ _ _ _ _) as [[[]|e'] cache] eqn:Hread; [done..|].
  intros [= _ <-]. unfold location_cache. simpl.
  unfold _read_rospack_cache in Hread. destruct (negb _); [done|].
  destruct (read_file w _); [by destruct (read_cache_lines _ _ _ _ _ _)|].
  by injection Hread as _ <-.
Qed.

(** [get_path] raises only for a name that is not in the index. *)
Lemma get_path_raises name self e self' :
  get_path w name self = (Raise e, self') →
  index_of w self !! name = None
  ∧ ((∃ msg, e = IOError msg) ∨ e = ResourceNotFound (PyStr name))
  ∧ ((_update_location_cache w self).1 = Ok () → e = ResourceNotFound (PyStr name)).
Proof.
  unfold get_path, bind, index_of.
  destruct (_update_location_cache w self) as [[[]|e'] self1] eqn:Hup; simpl.
  - destruct (location_cache self1 !! name) eqn:Hl; [done|].
    intros [= <- _]. auto.
  - intros [= <- <-]. split_and!; [|left; by eapply update_location_cache_raises|done].
    by rewrite (update_location_cache_raise_empty _ _ _ Hup).
Qed.

Lemma get_path_state name self :
  (get_path w name self).2 = (_update_location_cache w self).2.
Proof.
  unfold get_path, bind.
  destruct (_update_location_cache w self) as [[[]|e'] self1]; [|done].
  simpl. by destruct (location_cache self1 !! name).
Qed.

Lemma get_path_ok name self p self' :
  get_path w name self = (Ok p, self') →
  index_of w self !! name = Some p ∧ self' = (_update_location_cache w self).2.
Proof.
  unfold get_path, bind, index_of.
  destruct (_update_location_cache w self) as [[[]|e'] self1] eqn:Hup; simpl; [|done].
  destruct (location_cache self1 !! name) eqn:Hl; [|done].
  by intros [= <- <-].
Qed.

End Raises.

(** ** [stack_of] *)

Section PathFacts.

Lemma length_of_chars l : String.length (Str.of_chars l) = length l.
Proof. induction l as [|a l IH]; simpl; [done|by rewrite IH]. Qed.

Lemma length_chars s : length (Str.chars s) = String.length s.
Proof. induction s as [|a s IH]; simpl; [done|by rewrite IH]. Qed.

Lemma drop_while_length f l : length (Str.drop_while f l) ≤ length l.
Proof. induction l as [|a l IH]; simpl; [done|]. destruct (f a); simpl; lia. Qed.

Lemma drop_while_same_length f l :
  length (Str.drop_while f l) = length l → Str.drop_while f l = l.
Proof.
  destruct l as [|a l]; simpl; [done|]. destruct (f a); [|done].
  pose proof (drop_while_length f l). lia.
Qed.

(** [dirname] either leaves a path as it is or makes it shorter: the
    walk towards the root stops. *)
Lemma dirname_shorter d :
  PosixPath.dirname d ≠ d → String.length (PosixPath.dirname d) < String.length d.
Proof.
  intros Hne. unfold PosixPath.dirname in *.
  pose proof (drop_while_length PosixPath.not_slash (rev (Str.chars d))) as Hhead.
  pose proof (drop_while_length PosixPath.is_slash
                (Str.drop_while PosixPath.not_slash (rev (Str.chars d)))) as Hstripped.
  assert (Hback : Str.of_chars (rev (rev (Str.chars d))) = d).
  { rewrite rev_involutive. apply String.string_of_list_ascii_of_string. }
  rewrite length_of_chars, length_rev. rewrite length_rev, length_chars in Hhead.
  destruct (Str.drop_while PosixPath.is_slash
              (Str.drop_while PosixPath.not_slash (rev (Str.chars d)))) as [|a s'] eqn:Es.
  - destruct (decide (length (Str.drop_while PosixPath.not_slash (rev (Str.chars d)))
                      = String.length d)) as [Heq|]; [|lia].
    exfalso. apply Hne. rewrite drop_while_same_length; [done|].
    by rewrite length_rev, length_chars.
  - destruct (decide (length (a :: s') = String.length d)) as [Heq|]; [|lia].
    exfalso. apply Hne. rewrite <-Es.
    rewrite (drop_while_same_length PosixPath.is_slash) by (rewrite Es; lia).
    rewrite drop_while_same_length; [done|].
    rewrite length_rev, length_chars. lia.
Qed.

End PathFacts.

Section StackOf.
Context (w : World).

(** The loop of [stack_of] ends within [length d + 1] tests. *)
Lemma stack_of_loop_total fuel d :
  String.length d < fuel → ∃ r, stack_of_loop w fuel d = Some r.
Proof.
  revert d. induction fuel as [|fuel IH]; intros d Hfuel; [lia|].
  cbn [stack_of_loop].
  destruct (bool_decide (d ≠ "") && bool_decide (PosixPath.dirname d ≠ d)) eqn:Hc;
    [|by eexists].
  destruct (path_exists w _); [by eexists|].
  apply IH. apply andb_true_iff in Hc as [_ Hc%bool_decide_eq_true].
  pose proof (dirname_shorter d Hc). lia.
Qed.


End StackOf.

Module Standalone.

Definition package : node := Dir [("manifest.xml", File "<package/>")].

(** [/ws/solo] is under no stack; [/ws/tools/inner] is inside the
    stack [tools]. *)
Definition fs : node :=
  Dir [("ws", Dir [("solo", package);
                   ("tools", Dir [("stack.xml", File "<stack/>"); ("inner", package)])])].

Definition world : World :=
  {| fs_root := fs; cwd := "/"; get_ros_home := "/home/user/.ros";
     compute_package_paths := λ _ _, ["/ws"];
     parse_manifest_file := λ _ _, Ok {| version := None; depends := []; rosdeps := [] |} |}.

Definition rospack : ManifestManager := RosPack world "/ws" "".

End Standalone.



Example stack_of_inner :
  (stack_of Standalone.world 20 "inner" Standalone.rospack
   ≫= λ r, Some r.1) = Some (Ok (Some "tools")).
Proof. vm_compute. reflexivity. Qed.

(** ** [expand_to_packages] *)


Section Expand.
Context (w : World).





End Expand.



(** ** The instance state along a computation *)

Section StateFacts.
Context (w : World).

(** The configuration of an instance: fixed by the constructor. *)
Definition static (self : ManifestManager) :=
  (_manifest_name self, _cache_name self, _ros_root self, _ros_package_path self,
   _package_paths self).

(** What the first [_update_location_cache] computes. *)
Definition build_index (self : ManifestManager) : result unit * gmap string string :=
  if bool_decide (_package_paths self = []) then (Ok (), ∅)
  else
    match _read_rospack_cache w (_cache_name self) ∅
            (_ros_root self) (_ros_package_path self) with
    | (Raise e, cache) => (Raise e, cache)
    | (Ok true, cache) => (Ok (), cache)
    | (Ok false, cache) =>
        (Ok (), crawl w (_manifest_name self)
                  (compute_package_paths w (_ros_root self) (_ros_package_path self)) cache)
    end.

Lemma update_location_cache_eq self :
  _update_location_cache w self
  = match _location_cache self with
    | Some _ => (Ok (), self)
    | None => ((build_index self).1, set_location_cache self (build_index self).2)
    end.
Proof.
  unfold _update_location_cache, build_index. destruct (_location_cache self); [done|].
  case_bool_decide; [done|].
  by destruct (_read_rospack_cache _ _ _ _ _) as [[[]|e] cache].
Qed.

Lemma build_index_static self self' :
  static self = static self' → build_index self = build_index self'.
Proof. unfold static, build_index. by intros [= -> -> -> -> ->]. Qed.

(** What the manifest of [k] is for the instance: the cached one, or
    the one [get_manifest] would load now. *)
Definition manifest_view (self : ManifestManager) (k : string) : option Manifest :=
  match (get_manifest w k self).1 with
  | Ok m => Some m
  | Raise _ => None
  end.

(** Two states with the same configuration and index. *)
Definition loc_eq (self self' : ManifestManager) : Prop :=
  static self = static self' ∧ _location_cache self = _location_cache self'.

Lemma loc_eq_update self self' :
  loc_eq self self' →
  (_update_location_cache w self).1 = (_update_location_cache w self').1
  ∧ _location_cache (_update_location_cache w self).2
    = _location_cache (_update_location_cache w self').2.
Proof.
  intros (Hs & Hl). rewrite !update_location_cache_eq, <-Hl.
  destruct (_location_cache self) eqn:E; [simpl; split; congruence|].
  by rewrite (build_index_static _ _ Hs).
Qed.

Lemma loc_eq_index self self' : loc_eq self self' → index_of w self = index_of w self'.
Proof.
  intros H. apply loc_eq_update in H as (_ & Hl).
  unfold index_of, location_cache. by rewrite Hl.
Qed.

Lemma loc_eq_get_path self self' name :
  loc_eq self self' → (get_path w name self).1 = (get_path w name self').1.
Proof.
  intros H. apply loc_eq_update in H as (Hr & Hl).
  unfold get_path, bind.
  destruct (_update_location_cache w self) as [r1 s1],
           (_update_location_cache w self') as [r2 s2].
  simpl in *. subst r2. destruct r1 as [[]|e]; [|done].
  unfold location_cache. rewrite Hl. by destruct (_ !! name).
Qed.

(** Two states with the same configuration, index and manifests. *)
Definition core_eq (self self' : ManifestManager) : Prop :=
  loc_eq self self' ∧ _manifests self = _manifests self'.

Lemma get_manifest_fst self k :
  (get_manifest w k self).1
  = match _manifests self !! k with
    | Some m => Ok m
    | None => match (get_path w k self).1 with
              | Ok p => parse_manifest_file w p (_manifest_name self)
              | Raise e => Raise e
              end
    end.
Proof.
  unfold get_manifest. destruct (_manifests self !! k); [done|].
  unfold _load_manifest, bind.
  destruct (get_path w k self) as [[p|e] self1] eqn:Hg; [|done]. simpl.
  assert (_manifest_name self1 = _manifest_name self) as ->.
  { apply get_path_ok in Hg as [_ ->]. rewrite update_location_cache_eq.
    by destruct (_location_cache self). }
  by destruct (parse_manifest_file w p _).
Qed.

Lemma core_eq_view self self' k :
  core_eq self self' → manifest_view self k = manifest_view self' k.
Proof.
  intros [H Hm]. unfold manifest_view. rewrite !get_manifest_fst.
  rewrite (loc_eq_get_path _ _ k H), Hm. destruct H as (Hs & _).
  unfold static in Hs. by injection Hs as -> _ _ _ _.
Qed.

(** The names the instance can ever hold a manifest for. *)
Definition names_of (self : ManifestManager) : gset string :=
  dom (_manifests self) ∪ dom (index_of w self).

(** [self'] is a later state of [self]: same configuration and index,
    the same manifests seen, manifests only added. *)
Record ext (self self' : ManifestManager) : Prop := {
  ext_static : static self' = static self;
  ext_index : index_of w self' = index_of w self;
  ext_view : ∀ k, manifest_view self' k = manifest_view self k;
  ext_manifests : ∀ k m, _manifests self !! k = Some m → _manifests self' !! k = Some m;
  ext_names : dom (_manifests self') ⊆ names_of self;
}.

Lemma ext_refl self : ext self self.
Proof. split; try done. unfold names_of. set_solver. Qed.

Lemma ext_trans self1 self2 self3 : ext self1 self2 → ext self2 self3 → ext self1 self3.
Proof.
  intros [Hs1 Hi1 Hv1 Hm1 Hn1] [Hs2 Hi2 Hv2 Hm2 Hn2]. split.
  - congruence.
  - congruence.
  - intros k. congruence.
  - auto.
  - unfold names_of in *. rewrite Hi1 in Hn2. clear -Hn1 Hn2. set_solver.
Qed.

Lemma ext_core_eq self self' : core_eq self self' → ext self self'.
Proof.
  intros H. split.
  - by destruct H as ((-> & _) & _).
  - symmetry. apply loc_eq_index, H.
  - intros k. symmetry. by apply core_eq_view.
  - destruct H as (_ & <-). done.
  - destruct H as (_ & <-). unfold names_of. set_solver.
Qed.

Lemma ext_names_of self self' : ext self self' → names_of self' ⊆ names_of self.
Proof.
  intros [_ Hi _ _ Hn]. unfold names_of in *. rewrite Hi. clear -Hn. set_solver.
Qed.

End StateFacts.

Section ManifestFacts.
Context (w : World).

Lemma update_location_cache_ext self :
  ext w self (_update_location_cache w self).2
  ∧ _manifests (_update_location_cache w self).2 = _manifests self
  ∧ _depends_cache (_update_location_cache w self).2 = _depends_cache self
  ∧ _rosdeps_cache (_update_location_cache w self).2 = _rosdeps_cache self.
Proof.
  pose proof (update_location_cache_sets w self) as [c Hc].
  assert (Hfields : static (_update_location_cache w self).2 = static self
                    ∧ _manifests (_update_location_cache w self).2 = _manifests self
                    ∧ _depends_cache (_update_location_cache w self).2 = _depends_cache self
                    ∧ _rosdeps_cache (_update_location_cache w self).2 = _rosdeps_cache self).
  { rewrite update_location_cache_eq. by destruct (_location_cache self). }
  destruct Hfields as (Hs & Hm & Hd & Hr). split_and!; try done.
  assert (Hidx : index_of w (_update_location_cache w self).2 = index_of w self).
  { unfold index_of at 1. by rewrite (update_location_cache_built _ _ _ Hc). }
  assert (Hpath : ∀ k, (get_path w k (_update_location_cache w self).2).1
                       = match index_of w self !! k with
                         | Some p => Ok p
                         | None => Raise (ResourceNotFound (PyStr k))
                         end).
  { intros k. unfold get_path, bind. rewrite (update_location_cache_built _ _ _ Hc).
    unfold index_of. by destruct (_ !! k). }
  split; try done.
  - intros k. unfold manifest_view. rewrite !get_manifest_fst, Hm, Hpath.
    destruct (_manifests self !! k); [done|].
    unfold static in Hs. injection Hs as -> _ _ _ _.
    destruct (get_path w k self) as [[p|e] self1] eqn:Hg; simpl.
    + apply get_path_ok in Hg as [-> _]. done.
    + apply get_path_raises in Hg as (-> & _). done.
  - by intros k m; rewrite Hm.
  - rewrite Hm. unfold names_of. set_solver.
Qed.

(** [get_manifest] leaves both closure caches alone, and a manifest it
    returns is in [self._manifests] from then on. *)
Lemma get_manifest_ext k self r self' :
  get_manifest w k self = (r, self') →
  ext w self self'
  ∧ _depends_cache self' = _depends_cache self
  ∧ _rosdeps_cache self' = _rosdeps_cache self
  ∧ (∀ m, r = Ok m → _manifests self' !! k = Some m)
  ∧ (∀ e, r = Raise e → _manifests self' = _manifests self).
Proof.
  unfold get_manifest. destruct (_manifests self !! k) as [m|] eqn:Hk.
  { intros [= <- <-]. split_and!; try done; [apply ext_refl|]. by intros ? [= <-]. }
  unfold _load_manifest, bind.
  pose proof (update_location_cache_ext self) as (Hext & Hm & Hd & Hr).
  destruct (get_path w k self) as [[p|e] self1] eqn:Hg.
  - apply get_path_ok in Hg as [Hp ->].
    set (self1 := (_update_location_cache w self).2) in *.
    destruct (parse_manifest_file w p (_manifest_name self1)) as [m|e] eqn:Hparse.
    + intros [= <- <-]. split_and!; try done.
      * eapply ext_trans; [done|]. split; try done.
        -- apply loc_eq_index. by split.
        -- intros k'. unfold manifest_view. rewrite !get_manifest_fst. simpl.
           destruct (decide (k = k')) as [<-|Hne].
           ++ rewrite lookup_insert_eq, Hm, Hk.
              assert ((get_path w k self1).1 = Ok p) as ->; [|by rewrite Hparse].
              unfold get_path, bind. unfold self1.
              destruct (update_location_cache_sets w self) as [c Hc].
              rewrite (update_location_cache_built _ _ _ Hc).
              unfold index_of in Hp. by rewrite Hp.
           ++ rewrite lookup_insert_ne by done.
              by rewrite (loc_eq_get_path w (set_manifests self1 _) self1 k').
        -- intros k' m'. simpl. intros Hk'. rewrite lookup_insert_ne; [done|].
           intros <-. rewrite Hm, Hk in Hk'. done.
        -- simpl. rewrite dom_insert. unfold names_of.
           assert (k ∈ dom (index_of w self1)).
           { rewrite (ext_index _ _ _ Hext). apply elem_of_dom. by eexists. }
           set_solver.
      * intros m' [= <-]. simpl. by rewrite lookup_insert_eq.
    + intros [= <- <-]. split_and!; done.
  - intros [= <- <-].
    assert (self1 = (_update_location_cache w self).2) as ->.
    { by rewrite <-(get_path_state w k self), Hg. }
    split_and!; done.
Qed.

Lemma get_manifest_view k self m self' :
  get_manifest w k self = (Ok m, self') → manifest_view w self k = Some m.
Proof. unfold manifest_view. by intros ->. Qed.

End ManifestFacts.

(** ** The dependency closure: completed calls

    [Deps name self r self'] holds when [get_depends(name, True)], called
    in state [self], ends with outcome [r] in state [self']; [DepsLoop]
    is the same for the [for p in names] loop of the frame of [name].
    They are the call trees of [get_depends_implicit], whatever fuel
    was enough to build them. *)

Section Closure.
Context (w : World).

(** [self._depends_cache[name] = s = set()] *)
Definition placeholder (name : string) (self : ManifestManager) : ManifestManager :=
  set_depends_cache self (<[name := ∅]> (_depends_cache self)).

(** The elements of the object bound to [name]. *)
Definition entry (self : ManifestManager) (name : string) : gset string :=
  default ∅ (_depends_cache self !! name).

Inductive Deps : string → ManifestManager → result (list string) → ManifestManager → Prop :=
| Deps_cached name self s :
    _depends_cache self !! name = Some s →
    Deps name self (Ok (elements s)) self
| Deps_no_manifest name self e self1 :
    _depends_cache self !! name = None →
    get_manifest w name self = (Raise e, self1) →
    Deps name self (Raise e) self1
| Deps_raise name self m self1 e self2 :
    _depends_cache self !! name = None →
    get_manifest w name self = (Ok m, self1) →
    DepsLoop name (depends m) (placeholder name self1) (Raise e) self2 →
    Deps name self (Raise e) self2
| Deps_computed name self m self1 self2 self3 :
    _depends_cache self !! name = None →
    get_manifest w name self = (Ok m, self1) →
    DepsLoop name (depends m) (placeholder name self1) (Ok ()) self2 →
    self3 = (depends_update name (depends m) self2).2 →
    Deps name self (Ok (elements (entry self3 name))) self3
with DepsLoop : string → list string → ManifestManager → result unit → ManifestManager
                → Prop :=
| Loop_done name self :
    DepsLoop name [] self (Ok ()) self
| Loop_raise name p rest self e self1 :
    Deps p self (Raise e) self1 →
    DepsLoop name (p :: rest) self (Raise e) self1
| Loop_step name p rest self r self1 res self2 :
    Deps p self (Ok r) self1 →
    DepsLoop name rest (depends_update name r self1).2 res self2 →
    DepsLoop name (p :: rest) self res self2.

Scheme Deps_mut := Minimality for Deps Sort Prop
  with DepsLoop_mut := Minimality for DepsLoop Sort Prop.
Combined Scheme Deps_DepsLoop_ind from Deps_mut, DepsLoop_mut.

Lemma depends_loop_sound (rec : string → MF (list string)) name :
  (∀ p self r self', rec p self = Some (r, self') → Deps p self r self') →
  ∀ names self r self',
    depends_loop rec name names self = Some (r, self') → DepsLoop name names self r self'.
Proof.
  intros Hrec. induction names as [|p rest IH]; intros self r self'.
  - intros [= <- <-]. constructor.
  - cbn [depends_loop]. unfold bindF at 1.
    destruct (rec p self) as [[[l|e] self1]|] eqn:Hp; [| |done].
    + unfold bindF at 1, liftF at 1. cbn [depends_update].
      intros Hrest. eapply Loop_step; [by apply Hrec|]. by apply IH.
    + intros [= <- <-]. apply Loop_raise. by apply Hrec.
Qed.

Lemma get_depends_implicit_sound fuel name self r self' :
  get_depends_implicit w fuel name self = Some (r, self') → Deps name self r self'.
Proof.
  revert name self r self'. induction fuel as [|fuel IH]; intros name self r self'; [done|].
  cbn [get_depends_implicit].
  destruct (_depends_cache self !! name) as [s|] eqn:Hc.
  { intros [= <- <-]. by constructor. }
  unfold bindF at 1, liftF at 1.
  destruct (get_manifest w name self) as [[m|e] self1] eqn:Hm.
  - unfold bindF at 1. fold (placeholder name self1). unfold bindF at 1.
    destruct (depends_loop (get_depends_implicit w fuel) name (depends m)
                (placeholder name self1)) as [[[[]|e] self2]|] eqn:Hloop; [| |done].
    + unfold bindF, liftF. intros [= <- <-].
      refine (Deps_computed name self m self1 self2 _ Hc Hm _ eq_refl).
      by eapply depends_loop_sound.
    + intros [= <- <-]. eapply Deps_raise; [done|done|].
      by eapply depends_loop_sound.
  - intros [= <- <-]. by eapply Deps_no_manifest.
Qed.

End Closure.

Section Frame.
Context (w : World).

Lemma ext_set_depends_cache self c : ext w self (set_depends_cache self c).
Proof. apply ext_core_eq. by repeat split. Qed.

Lemma ext_set_rosdeps_cache self c : ext w self (set_rosdeps_cache self c).
Proof. apply ext_core_eq. by repeat split. Qed.

(** What every completed call keeps: the configuration, the index and
    the manifests seen ([ext]), the secondary cache, and every entry
    the closure cache had when the call began; a value it returns is the
    entry of its name. *)
Definition call_frame (name : string) (self : ManifestManager)
    (r : result (list string)) (self' : ManifestManager) : Prop :=
  ext w self self'
  ∧ _rosdeps_cache self' = _rosdeps_cache self
  ∧ (∀ k s, _depends_cache self !! k = Some s → _depends_cache self' !! k = Some s)
  ∧ (∀ l, r = Ok l → ∃ s, _depends_cache self' !! name = Some s ∧ l = elements s).

(** The loop of the frame of [name] only grows the entry of [name]. *)
Definition loop_frame (name : string) (self self' : ManifestManager) : Prop :=
  ext w self self'
  ∧ _rosdeps_cache self' = _rosdeps_cache self
  ∧ (∀ k s, k ≠ name →
       _depends_cache self !! k = Some s → _depends_cache self' !! k = Some s)
  ∧ (∀ s0, _depends_cache self !! name = Some s0 →
       ∃ s1, _depends_cache self' !! name = Some s1 ∧ s0 ⊆ s1).

Lemma Deps_frame :
  (∀ name self r self', Deps w name self r self' → call_frame name self r self')
  ∧ (∀ name names self (r : result unit) self',
       DepsLoop w name names self r self' → loop_frame name self self').
Proof.
  apply Deps_DepsLoop_ind.
  - intros name self s Hs. split_and!; [apply ext_refl|done|done|].
    intros l [= <-]. by exists s.
  - intros name self e self1 Hnone Hm.
    apply get_manifest_ext in Hm as (Hext & Hd & Hr & _). split_and!; [done|done| |done].
    by rewrite Hd.
  - intros name self m self1 e self2 Hnone Hm _ (Hext2 & Hr2 & Hkeep & _).
    apply get_manifest_ext in Hm as (Hext & Hd & Hr & _).
    split_and!; [|by rewrite Hr2| |done].
    + eapply ext_trans; [done|]. eapply ext_trans; [apply ext_set_depends_cache|done].
    + intros k s Hk. assert (k ≠ name) by congruence.
      apply Hkeep; [done|]. simpl. rewrite lookup_insert_ne by done. by rewrite Hd.
  - intros name self m self1 self2 self3 Hnone Hm _ (Hext2 & Hr2 & Hkeep & _) ->.
    apply get_manifest_ext in Hm as (Hext & Hd & Hr & _).
    split_and!.
    + eapply ext_trans; [done|]. eapply ext_trans; [apply ext_set_depends_cache|].
      eapply ext_trans; [done|]. apply ext_set_depends_cache.
    + simpl. by rewrite Hr2.
    + intros k s Hk. assert (k ≠ name) by congruence.
      simpl. rewrite lookup_insert_ne by done.
      apply Hkeep; [done|]. simpl. rewrite lookup_insert_ne by done. by rewrite Hd.
    + intros l [= <-]. eexists. split; [|done].
      unfold entry. simpl. by rewrite lookup_insert_eq.
  - intros name self. split_and!; [apply ext_refl|done|done|].
    intros s0 Hs0. by exists s0.
  - intros name p rest self e self1 _ (Hext & Hr & Hkeep & _).
    split_and!; [done|done|by auto|]. intros s0 Hs0. exists s0. auto.
  - intros name p rest self r self1 res self2 _ (Hext & Hr & Hkeep & _) _
      (Hext2 & Hr2 & Hkeep2 & Hgrow).
    unfold depends_update in *. cbn [snd] in *.
    split_and!.
    + eapply ext_trans; [done|]. eapply ext_trans; [apply ext_set_depends_cache|done].
    + by rewrite Hr2.
    + intros k s Hne Hk. apply Hkeep2; [done|]. simpl.
      rewrite lookup_insert_ne by done. by apply Hkeep.
    + intros s0 Hs0. apply Hkeep in Hs0.
      destruct (Hgrow (s0 ∪ list_to_set r)) as (s1 & Hs1 & Hsub).
      { simpl. by rewrite lookup_insert_eq, Hs0. }
      exists s1. split; [done|]. set_solver.
Qed.

Lemma get_depends_implicit_frame fuel name self r self' :
  get_depends_implicit w fuel name self = Some (r, self') → call_frame name self r self'.
Proof. intros H. by apply Deps_frame, get_depends_implicit_sound with fuel. Qed.

End Frame.

(** ** Termination of the closure *)

Section Termination.
Context (w : World).

(** The names that can still get a placeholder: those the instance
    can hold a manifest for and that have no entry yet.  Each frame that
    recurses has added one entry, so the depth of the recursion is at
    most the size of this set. *)
Definition pending (self : ManifestManager) : nat :=
  size (names_of w self ∖ dom (_depends_cache self)).

Lemma pending_mono self self' :
  ext w self self' →
  (∀ k s, _depends_cache self !! k = Some s → is_Some (_depends_cache self' !! k)) →
  pending self' ≤ pending self.
Proof.
  intros Hext Hkeep. unfold pending. apply subseteq_size.
  pose proof (ext_names_of w _ _ Hext) as Hnames.
  intros k [Hk Hnot]%elem_of_difference. apply elem_of_difference. split; [by apply Hnames|].
  intros [s Hs]%elem_of_dom. apply Hnot, elem_of_dom. by eapply Hkeep.
Qed.

Lemma pending_placeholder name self m self1 :
  _depends_cache self !! name = None →
  get_manifest w name self = (Ok m, self1) →
  pending (placeholder name self1) < pending self.
Proof.
  intros Hnone Hm. apply get_manifest_ext in Hm as (Hext & Hd & _ & Hin & _).
  specialize (Hin m eq_refl).
  pose proof (ext_names w _ _ Hext) as Hdom.
  pose proof (ext_names_of w _ _ (ext_trans w _ _ _ Hext (ext_set_depends_cache w self1
                (<[name:=∅]> (_depends_cache self1))))) as Hnames.
  unfold pending. apply subset_size. split.
  - intros k [Hk Hnot]%elem_of_difference. apply elem_of_difference.
    split; [by apply Hnames|]. intros Hk'. apply Hnot. unfold placeholder. simpl.
    rewrite dom_insert, Hd. set_solver.
  - intros Hsub. assert (Hname : name ∈ names_of w self ∖ dom (_depends_cache self)).
    { apply elem_of_difference. split.
      - apply Hdom, elem_of_dom. by eexists.
      - by apply not_elem_of_dom. }
    apply Hsub, elem_of_difference in Hname as [_ Hnot]. apply Hnot.
    unfold placeholder. simpl. rewrite dom_insert. set_solver.
Qed.

Lemma depends_loop_total (rec : string → MF (list string)) name bound :
  (∀ p self, pending self < bound → ∃ r self', rec p self = Some (r, self')) →
  (∀ p self r self', rec p self = Some (r, self') → call_frame w p self r self') →
  ∀ names self,
    pending self < bound → ∃ r self', depends_loop rec name names self = Some (r, self').
Proof.
  intros Hrec Hframe. induction names as [|p rest IH]; intros self Hfuel.
  { by eexists _, _. }
  cbn [depends_loop]. unfold bindF at 1.
  destruct (Hrec p self Hfuel) as (r & self1 & Hp). rewrite Hp.
  destruct r as [l|e]; [|by eexists _, _].
  unfold bindF at 1, liftF at 1. cbn [depends_update].
  apply IH. apply Hframe in Hp as (Hext & _ & Hkeep & _).
  eapply Nat.le_lt_trans; [|done]. apply pending_mono.
  - eapply ext_trans; [done|apply ext_set_depends_cache].
  - intros k s Hk. simpl. destruct (decide (name = k)) as [->|Hne].
    + by rewrite lookup_insert_eq.
    + rewrite lookup_insert_ne by done. apply Hkeep in Hk. by eexists.
Qed.

(** [get_depends(name, True)] terminates, with a value or a raise, on
    every dependency graph and in every state. *)
Lemma get_depends_implicit_total fuel name self :
  pending self < fuel → ∃ r self', get_depends_implicit w fuel name self = Some (r, self').
Proof.
  revert name self. induction fuel as [|fuel IH]; intros name self Hfuel; [lia|].
  cbn [get_depends_implicit].
  destruct (_depends_cache self !! name) as [s|] eqn:Hc; [by eexists _, _|].
  unfold bindF at 1, liftF at 1.
  destruct (get_manifest w name self) as [[m|e] self1] eqn:Hm; [|by eexists _, _].
  unfold bindF at 1. fold (placeholder name self1). unfold bindF at 1.
  pose proof (pending_placeholder _ _ _ _ Hc Hm) as Hless.
  destruct (depends_loop_total (get_depends_implicit w fuel) name fuel IH
              (get_depends_implicit_frame w fuel) (depends m) (placeholder name self1))
    as (r & self2 & Hloop); [lia|].
  rewrite Hloop. destruct r as [[]|e]; [|by eexists _, _].
  unfold bindF, liftF. by eexists _, _.
Qed.

End Termination.

(** ** Invariants of the closure cache *)

Section CacheInvariants.
Context (w : World).

(** Every entry outside [P] (the names whose frames are open) holds at
    least the names its manifest lists.  It holds with [P] empty for a
    new instance and after every call that returned. *)
Definition entries_cover (self : ManifestManager) (P : gset string) : Prop :=
  ∀ k s, k ∉ P → _depends_cache self !! k = Some s →
    ∃ m, _manifests self !! k = Some m ∧ ∀ d, d ∈ depends m → d ∈ s.

Lemma entries_cover_ext self self' P :
  ext w self self' → _depends_cache self' = _depends_cache self →
  entries_cover self P → entries_cover self' P.
Proof.
  intros Hext Hd Hinv k s Hk Hs. rewrite Hd in Hs.
  destruct (Hinv k s Hk Hs) as (m & Hm & Hsub). exists m. split; [|done].
  by apply (ext_manifests w _ _ Hext).
Qed.

Lemma Deps_entries_cover :
  (∀ name self r self', Deps w name self r self' →
     ∀ P l, r = Ok l → entries_cover self P → entries_cover self' P)
  ∧ (∀ name names self (r : result unit) self', DepsLoop w name names self r self' →
       ∀ P, r = Ok () → name ∈ P → entries_cover self P → entries_cover self' P).
Proof.
  apply Deps_DepsLoop_ind.
  - done.
  - done.
  - done.
  - intros name self m self1 self2 self3 Hnone Hm Hloop IH -> P l _ Hinv.
    pose proof (proj2 (Deps_frame w) _ _ _ _ _ Hloop) as (Hext2 & _).
    apply get_manifest_ext in Hm as (Hext & Hd & _ & Hin & _). specialize (Hin m eq_refl).
    assert (Hinv2 : entries_cover self2 (P ∪ {[name]})).
    { apply IH; [done|set_solver|]. intros k s Hk Hs. unfold placeholder in Hs. simpl in Hs.
      rewrite lookup_insert_ne in Hs by set_solver.
      apply (entries_cover_ext self self1 P Hext Hd Hinv k s); [set_solver|done]. }
    intros k s Hk Hs. unfold depends_update in *. simpl in *.
    destruct (decide (name = k)) as [<-|Hne].
    + rewrite lookup_insert_eq in Hs. injection Hs as <-. exists m. split.
      * apply (ext_manifests w _ _ Hext2). done.
      * intros d Hd'. set_solver.
    + rewrite lookup_insert_ne in Hs by done. apply Hinv2; [set_solver|done].
  - done.
  - done.
  - intros name p rest self r self1 res self2 _ IHp _ IHrest P -> Hname Hinv.
    apply IHrest; [done|done|].
    specialize (IHp P r eq_refl Hinv). intros k s Hk Hs.
    unfold depends_update in Hs. simpl in *.
    rewrite lookup_insert_ne in Hs by (intros <-; done). by apply IHp.
Qed.

(** Every name a manifest lists can itself be resolved to a manifest. *)
Definition all_resolve (self : ManifestManager) : Prop :=
  ∀ k m d, manifest_view w self k = Some m → d ∈ depends m →
    is_Some (manifest_view w self d).

Lemma all_resolve_ext self self' : ext w self self' → all_resolve self → all_resolve self'.
Proof.
  intros Hext Hall k m d Hk Hd. rewrite (ext_view w _ _ Hext) in *. by eapply Hall.
Qed.

(** On such a graph the closure never raises. *)
Lemma Deps_no_raise :
  (∀ name self r self', Deps w name self r self' →
     all_resolve self →
     is_Some (manifest_view w self name) ∨ is_Some (_depends_cache self !! name) →
     ∃ l, r = Ok l)
  ∧ (∀ name names self (r : result unit) self', DepsLoop w name names self r self' →
       all_resolve self →
       (∀ p, p ∈ names → is_Some (manifest_view w self p)) →
       r = Ok ()).
Proof.
  apply Deps_DepsLoop_ind.
  - intros. by eexists.
  - intros name self e self1 Hnone Hm _ [[m Hv]|[s Hs]]; [|congruence].
    unfold manifest_view in Hv. by rewrite Hm in Hv.
  - intros name self m self1 e self2 Hnone Hm _ IH Hall _.
    pose proof (get_manifest_view w _ _ _ _ Hm) as Hv.
    apply get_manifest_ext in Hm as (Hext & _).
    assert (Hext' : ext w self (placeholder name self1)).
    { eapply ext_trans; [done|apply ext_set_depends_cache]. }
    discriminate IH.
    + by eapply all_resolve_ext.
    + intros p Hp. rewrite (ext_view w _ _ Hext'). by eapply Hall.
  - intros. by eexists.
  - done.
  - intros name p rest self e self1 _ IH Hall Hnames.
    destruct IH as [l Hl]; [done|left; apply Hnames; by left|done].
  - intros name p rest self r self1 res self2 Hp _ _ IH Hall Hnames.
    pose proof (proj1 (Deps_frame w) _ _ _ _ Hp) as (Hext & _).
    assert (Hext' : ext w self (depends_update name r self1).2).
    { eapply ext_trans; [done|apply ext_set_depends_cache]. }
    apply IH.
    + by eapply all_resolve_ext.
    + intros q Hq. rewrite (ext_view w _ _ Hext'). apply Hnames. by right.
Qed.

End CacheInvariants.

(** ** Example dependency graphs *)

Module Graphs.

Definition package (deps secondary : list string) : Manifest :=
  {| version := None; depends := deps; rosdeps := secondary |}.

(** One root [/ws] with a package directory per row of [table];
    parsing the manifest of a directory gives the row of its name. *)
Definition tree (table : list (string * Manifest)) : node :=
  Dir [("ws", Dir ((λ e, (e.1, Dir [("manifest.xml", File "<package/>")])) <$> table))].

Definition world (table : list (string * Manifest)) : World :=
  {| fs_root := tree table; cwd := "/"; get_ros_home := "/home/user/.ros";
     compute_package_paths := λ _ _, ["/ws"];
     parse_manifest_file := λ d _,
       match assoc (PosixPath.basename d) table with
       | Some m => Ok m
       | None => Raise (InvalidManifest d)
       end |}.

Definition rospack (table : list (string * Manifest)) : ManifestManager :=
  RosPack (world table) "/ws" "".

(** [P1] and [P2] depend on each other. *)
Definition mutual : list (string * Manifest) :=
  [("P1", package ["P2"] []); ("P2", package ["P1"] [])].

(** [p1] depends on [p2], [p2] on [p3]. *)
Definition chain : list (string * Manifest) :=
  [("p1", package ["p2"] ["boost"]); ("p2", package ["p3"] ["zlib"]);
   ("p3", package [] ["curl"; "zlib"])].

(** The chain after the manifests were edited on disk: [p1] now
    depends on nothing. *)
Definition chain_edited : list (string * Manifest) :=
  [("p1", package [] []); ("p2", package ["p3"] []); ("p3", package [] [])].

End Graphs.

Lemma manifest_view_names (w : World) (self : ManifestManager) k m :
  manifest_view w self k = Some m → k ∈ names_of w self.
Proof.
  unfold manifest_view, names_of. rewrite get_manifest_fst.
  destruct (_manifests self !! k) as [m'|] eqn:Hk.
  { intros _. apply elem_of_union_l, elem_of_dom. by eexists. }
  destruct (get_path w k self) as [[p|e] self1] eqn:Hg; simpl; [|done].
  intros _. apply get_path_ok in Hg as [Hp _].
  apply elem_of_union_r, elem_of_dom. by eexists.
Qed.

Example mutual_closures :
  let w := Graphs.world Graphs.mutual in
  ∃ self1 self2,
    get_depends w 5 "P1" true (Graphs.rospack Graphs.mutual) = Some (Ok ["P1"; "P2"], self1)
    ∧ get_depends w 5 "P2" true self1 = Some (Ok ["P1"], self2).
Proof. eexists _, _. split; [vm_compute; reflexivity|]. vm_compute. reflexivity. Qed.

Example chain_closures :
  let w := Graphs.world Graphs.chain in
  ∃ self1 self2,
    get_depends w 5 "p1" true (Graphs.rospack Graphs.chain) = Some (Ok ["p3"; "p2"], self1)
    ∧ get_depends w 5 "p3" true self1 = Some (Ok [], self2).
Proof. eexists _, _. split; [vm_compute; reflexivity|]. vm_compute. reflexivity. Qed.

(** ** Memoization *)

(** C9: once [get_depends(name, True)] has returned a value, a second
    call on the instance returns the same value and leaves the state as
    it is, in whatever state [w'] the disk is by then. *)
Theorem get_depends_memoized (w w' : World) (self self' : ManifestManager)
    (name : string) (fuel fuel' : nat) (l : list string) :
  get_depends w fuel name true self = Some (Ok l, self') →
  0 < fuel' →
  get_depends w' fuel' name true self' = Some (Ok l, self').
Proof.
  unfold get_depends. simpl. intros Hcall Hfuel.
  apply get_depends_implicit_frame in Hcall as (_ & _ & _ & Hentry).
  destruct (Hentry l eq_refl) as (s & Hs & ->).
  destruct fuel' as [|fuel']; [lia|]. cbn [get_depends_implicit]. by rewrite Hs.
Qed.

Lemma get_depends_memoized_witness :
  ∃ l self',
    get_depends (Graphs.world Graphs.chain) 5 "p1" true (Graphs.rospack Graphs.chain)
      = Some (Ok l, self')
    ∧ get_depends (Graphs.world Graphs.chain_edited) 1 "p1" true self' = Some (Ok l, self')
    ∧ l = ["p3"; "p2"].
Proof.
  eexists _, _. split; [vm_compute; reflexivity|]. split; [|reflexivity].
  apply (get_depends_memoized (Graphs.world Graphs.chain) (Graphs.world Graphs.chain_edited)
           (Graphs.rospack Graphs.chain) _ "p1" 5 1).
  - vm_compute. reflexivity.
  - lia.
Defined.

(** ** Cycles *)


Lemma mutual_all_resolve :
  all_resolve (Graphs.world Graphs.mutual) (Graphs.rospack Graphs.mutual).
Proof.
  intros k m d Hk Hd. pose proof (manifest_view_names _ _ _ _ Hk) as Hin.
  assert (Hnames : names_of (Graphs.world Graphs.mutual) (Graphs.rospack Graphs.mutual)
                   = {["P1"; "P2"]}) by (vm_compute; reflexivity).
  rewrite Hnames in Hin.
  apply elem_of_union in Hin as [Hin%elem_of_singleton|Hin%elem_of_singleton]; subst k;
    vm_compute in Hk; injection Hk as <-; simpl in Hd;
    apply list_elem_of_singleton in Hd as ->; eexists; vm_compute; reflexivity.
Qed.


(** ** Acyclic graphs: the cached closures are closed *)

Section Acyclic.
Context (w : World) (rank : string → nat).



(** Every entry outside [P] covers its manifest and is closed: each
    member has an entry of its own, outside [P], that is included. *)
Definition entries_closed (self : ManifestManager) (P : gset string) : Prop :=
  ∀ k s, k ∉ P → _depends_cache self !! k = Some s →
    (∃ m, _manifests self !! k = Some m ∧ ∀ d, d ∈ depends m → d ∈ s)
    ∧ ∀ d, d ∈ s → (d ∉ P) ∧ (∃ sd, _depends_cache self !! d = Some sd ∧ sd ⊆ s).





End Acyclic.

(** ** The closure as a fixed point *)





(** The state a call leaves behind. *)
Definition state_after {A} (call : MF A) (self : ManifestManager) : ManifestManager :=
  match call self with
  | Some (_, self') => self'
  | None => self
  end.





(** ** Secondary dependencies *)

Section Rosdeps.
Context (w : World).


Lemma get_manifest_cached k self m :
  _manifests self !! k = Some m → get_manifest w k self = (Ok m, self).
Proof. unfold get_manifest. by intros ->. Qed.




(** [r] is the union of the secondary names of [k] and of the
    members of the cached closure of [k], whose manifests are loaded. *)
Definition sound_entry (self : ManifestManager) (k : string) (r : gset string) : Prop :=
  ∃ D mk, _depends_cache self !! k = Some D ∧ _manifests self !! k = Some mk
    ∧ (∀ d, d ∈ D → is_Some (_manifests self !! d))
    ∧ (∀ x, x ∈ r ↔
            x ∈ rosdeps mk
            ∨ ∃ d md, d ∈ D ∧ _manifests self !! d = Some md ∧ x ∈ rosdeps md).

(** Every memoized secondary closure is the union it was computed as.
    It holds for a new instance and after every call that returned. *)
Definition rosdeps_sound (self : ManifestManager) : Prop :=
  ∀ k r, _rosdeps_cache self !! k = Some r → sound_entry self k r.

Lemma sound_entry_ext self self' k r :
  ext w self self' →
  (∀ k s, _depends_cache self !! k = Some s → _depends_cache self' !! k = Some s) →
  sound_entry self k r → sound_entry self' k r.
Proof.
  intros Hext Hkeep (D & mk & HD & Hmk & Hmem & Hiff).
  pose proof (ext_manifests w _ _ Hext) as Hmono.
  exists D, mk. split_and!; [by apply Hkeep|by apply Hmono| |].
  - intros d Hd. destruct (Hmem d Hd) as [md Hmd]. exists md. by apply Hmono.
  - intros x. rewrite Hiff. split.
    + intros [Hx|(d & md & Hd & Hmd & Hx)]; [by left|]. right. exists d, md.
      split_and!; [done|by apply Hmono|done].
    + intros [Hx|(d & md & Hd & Hmd & Hx)]; [by left|]. right.
      destruct (Hmem d Hd) as [md' Hmd']. pose proof (Hmono _ _ Hmd') as Hmd''.
      exists d, md'. split_and!; [done|done|congruence].
Qed.




End Rosdeps.


Example chain_rosdeps :
  fst <$> get_rosdeps (Graphs.world Graphs.chain) 5 "p1" true (Graphs.rospack Graphs.chain)
  = Some (Ok ["curl"; "zlib"; "boost"]).
Proof. vm_compute. reflexivity. Qed.


(** ** The hypotheses on the instance are invariants

    [entries_cover] and [rosdeps_sound] are stated of the instance the
    call starts from.  They hold of a new instance, and the calls of the
    module keep them, with one exception: a call of the closure that
    raises after its placeholder was stored leaves the placeholder in the
    cache, and the next call for that name is answered from it. *)

Section Invariants.
Context (w : World).

Lemma new_instance_invariants manifest_name cache_name ros_root ros_package_path :
  let self := init w manifest_name cache_name ros_root ros_package_path in
  entries_cover self ∅ ∧ entries_closed self ∅ ∧ rosdeps_sound self.
Proof. split_and!; intros ?; intros; simplify_map_eq. Qed.

(** Where every listed name resolves, no call of the closure leaves a
    placeholder: [entries_cover] is kept whatever the outcome. *)
Lemma Deps_keeps_entries_cover name self r self' :
  Deps w name self r self' → all_resolve w self →
  entries_cover self ∅ → entries_cover self' ∅.
Proof.
  intros Hdeps Hall Hinv. destruct r as [l|e].
  { by apply (proj1 (Deps_entries_cover w) _ _ _ _ Hdeps ∅ l). }
  pose proof (proj1 (Deps_no_raise w) _ _ _ _ Hdeps Hall) as Hok.
  inversion Hdeps as [|? ? ? ? Hnone Hm|? ? m ? ? ? Hnone Hm|]; subst.
  - apply get_manifest_ext in Hm as (Hext & Hd & _). by eapply entries_cover_ext.
  - destruct Hok as [l Hl]; [|done]. left. exists m. by eapply get_manifest_view.
Qed.

(** No call of [get_depends] disturbs the memoized secondary closures. *)
Lemma get_depends_keeps_rosdeps_sound fuel name implicit self r self' :
  get_depends w fuel name implicit self = Some (r, self') →
  rosdeps_sound self → rosdeps_sound self'.
Proof.
  intros Hcall Hsound k s Hk. destruct implicit.
  - unfold get_depends in Hcall. simpl in Hcall.
    apply get_depends_implicit_frame in Hcall as (Hext & Hr & Hkeep & _).
    rewrite Hr in Hk. by apply (sound_entry_ext w self self' k s Hext Hkeep), Hsound.
  - unfold get_depends, liftF, bind, ret in Hcall. simpl in Hcall.
    destruct (get_manifest w name self) as [[m|e] s1] eqn:Hm;
      injection Hcall as <- <-;
      apply get_manifest_ext in Hm as (Hext & Hd & Hr & _);
      rewrite Hr in Hk;
      (apply (sound_entry_ext w self s1 k s Hext); [by rewrite Hd|by apply Hsound]).
Qed.

End Invariants.

(** [P] lists [Q] and a name that is in no root: the first call raises
    and leaves the placeholder of [P]; the second call returns it. *)
Example failed_call_leaves_placeholder :
  let table := [("P", Graphs.package ["Q"; "Missing"] ["boost"]);
                ("Q", Graphs.package [] ["zlib"])] in
  let w := Graphs.world table in
  let self1 := state_after (get_depends w 5 "P" true) (Graphs.rospack table) in
  fst <$> get_depends w 5 "P" true (Graphs.rospack table)
    = Some (Raise (ResourceNotFound (PyStr "Missing")))
  ∧ fst <$> get_depends w 5 "P" true self1 = Some (Ok [])
  ∧ fst <$> get_depends w 5 "P" false self1 = Some (Ok ["Q"; "Missing"]).
Proof. split_and!; vm_compute; reflexivity. Qed.

(** * Further properties of the module *)

(** ** What one crawl records *)

Section CrawlRecords.
Context (w : World) (manifest_name : string).

Local Abbreviation visit := (list_by_path_visit manifest_name).

Lemma foldl_visit_records ys resources (cache : gmap string string) :
  NoDup resources →
  NoDup (foldl visit (resources, cache) ys).1
  ∧ (∀ k, k ∈ resources → k ∈ (foldl visit (resources, cache) ys).1)
  ∧ (∀ k, k ∈ (foldl visit (resources, cache) ys).1 → k ∉ resources →
       ∃ d dirs files, (d, dirs, files) ∈ ys ∧ manifest_name ∈ files
         ∧ (foldl visit (resources, cache) ys).2 !! k = Some d ∧ PosixPath.basename d = k)
  ∧ (∀ k, k ∉ (foldl visit (resources, cache) ys).1 ∨ k ∈ resources →
       (foldl visit (resources, cache) ys).2 !! k = cache !! k).
Proof.
  revert resources cache.
  induction ys as [|[[d dirs] files] ys IH]; intros resources cache Hnodup.
  { simpl. split_and!; [done|done| |done]. intros k Hk Hnot. done. }
  cbn [foldl].
  assert (Hstep : visit (resources, cache) (d, dirs, files)
                  = if bool_decide (manifest_name ∈ files) then
                      if bool_decide (PosixPath.basename d ∉ resources)
                      then (resources ++ [PosixPath.basename d],
                            <[PosixPath.basename d := d]> cache)
                      else (resources, cache)
                    else (resources, cache)) by done.
  rewrite Hstep. clear Hstep.
  destruct (bool_decide (manifest_name ∈ files)) eqn:Hmarker;
    [destruct (bool_decide (PosixPath.basename d ∉ resources)) eqn:Hnew|].
  - apply bool_decide_eq_true in Hmarker, Hnew.
    assert (Hnodup' : NoDup (resources ++ [PosixPath.basename d])).
    { apply NoDup_app. split_and!; [done| |apply NoDup_singleton].
      intros x Hx ->%list_elem_of_singleton. done. }
    destruct (IH (resources ++ [PosixPath.basename d])
                (<[PosixPath.basename d := d]> cache) Hnodup') as (H1 & H2 & H3 & H4).
    split_and!; [done| | |].
    + intros k Hk. apply H2, elem_of_app. by left.
    + intros k Hk Hnot. destruct (decide (k = PosixPath.basename d)) as [->|Hne].
      * exists d, dirs, files. split_and!; [by left|done| |done].
        rewrite H4; [by rewrite lookup_insert_eq|]. right. apply elem_of_app. right. by left.
      * destruct (H3 k Hk) as (d' & dirs' & files' & Hin & Hm' & Hl & Hb).
        { intros [Hr|Hr%list_elem_of_singleton]%elem_of_app; done. }
        exists d', dirs', files'. split_and!; [by right|done..].
    + intros k Hk. rewrite H4.
      * rewrite lookup_insert_ne; [done|]. intros <-. destruct Hk as [Hk|Hk]; [|done].
        apply Hk, H2, elem_of_app. right. by left.
      * destruct Hk as [Hk|Hk]; [by left|]. right. apply elem_of_app. by left.
  - destruct (IH resources cache Hnodup) as (H1 & H2 & H3 & H4).
    split_and!; [done..| |done].
    intros k Hk Hnot. destruct (H3 k Hk Hnot) as (d' & dirs' & files' & Hin & Hrest).
    exists d', dirs', files'. split; [by right|done].
  - destruct (IH resources cache Hnodup) as (H1 & H2 & H3 & H4).
    split_and!; [done..| |done].
    intros k Hk Hnot. destruct (H3 k Hk Hnot) as (d' & dirs' & files' & Hin & Hrest).
    exists d', dirs', files'. split; [by right|done].
Qed.

End CrawlRecords.

(** X1: [list_by_path] returns each name once; the list does not
    depend on the dictionary it is given; afterwards the dictionary maps
    every returned name to a directory of that name in which the walk saw
    the marker file, and holds what it held for every other name. *)
Theorem list_by_path_records (w : World) (manifest_name path : string)
    (cache : gmap string string) :
  NoDup (list_by_path w manifest_name path cache).1
  ∧ (list_by_path w manifest_name path cache).1 = (list_by_path w manifest_name path ∅).1
  ∧ (∀ k, k ∈ (list_by_path w manifest_name path cache).1 →
       ∃ d dirs files,
         (d, dirs, files) ∈ os_walk w (list_by_path_prune manifest_name)
                              (PosixPath.abspath (cwd w) path)
         ∧ manifest_name ∈ files
         ∧ (list_by_path w manifest_name path cache).2 !! k = Some d
         ∧ PosixPath.basename d = k)
  ∧ (∀ k, k ∉ (list_by_path w manifest_name path cache).1 →
       (list_by_path w manifest_name path cache).2 !! k = cache !! k).
Proof.
  destruct (foldl_visit_records manifest_name
              (os_walk w (list_by_path_prune manifest_name) (PosixPath.abspath (cwd w) path))
              [] cache (NoDup_nil_2)) as (H1 & _ & H3 & H4).
  split_and!; [done| | |].
  - by rewrite list_by_path_cache.
  - intros k Hk. apply H3; [done|]. by intros ?%elem_of_nil.
  - intros k Hk. apply H4. by left.
Qed.

Module Nested.

Definition package : node := Dir [("manifest.xml", File "<package/>")].

(** One root with two directories named [pkg], in [x] and in [y]; the
    walk visits [x] first. *)
Definition fs : node :=
  Dir [("r", Dir [("x", Dir [("pkg", package)]); ("y", Dir [("pkg", package)])])].

Definition world : World :=
  {| fs_root := fs; cwd := "/"; get_ros_home := "/home/user/.ros";
     compute_package_paths := λ _ _, ["/r"];
     parse_manifest_file := λ _ _, Ok {| version := None; depends := []; rosdeps := [] |} |}.

End Nested.

(** X2: within one call of [list_by_path] the first directory of a
    name that the walk reaches with the marker file is the one recorded;
    a later directory of the same name does not replace it. *)
Theorem first_directory_of_a_root_wins (w : World) (manifest_name path : string)
    (cache : gmap string string) ys1 ys2 (d : string) (dirs files : list string) :
  os_walk w (list_by_path_prune manifest_name) (PosixPath.abspath (cwd w) path)
    = ys1 ++ (d, dirs, files) :: ys2 →
  manifest_name ∈ files →
  (∀ d' dirs' files', (d', dirs', files') ∈ ys1 → manifest_name ∈ files' →
     PosixPath.basename d' ≠ PosixPath.basename d) →
  (list_by_path w manifest_name path cache).2 !! PosixPath.basename d = Some d.
Proof.
  intros Hwalk Hmarker Hfirst. unfold list_by_path. rewrite Hwalk, foldl_app.
  destruct (foldl (list_by_path_visit manifest_name) ([], cache) ys1) as [res1 c1] eqn:H1.
  pose proof (foldl_visit_records manifest_name ys1 [] cache (NoDup_nil_2))
    as (Hnodup1 & _ & Hfrom & _).
  rewrite H1 in Hnodup1, Hfrom. simpl in Hnodup1, Hfrom.
  assert (Hnew : PosixPath.basename d ∉ res1).
  { intros Hin. destruct (Hfrom _ Hin) as (d' & dirs' & files' & Hy & Hm & _ & Hb).
    - by intros ?%elem_of_nil.
    - by eapply Hfirst. }
  cbn [foldl].
  assert (Hstep : list_by_path_visit manifest_name (res1, c1) (d, dirs, files)
                  = (res1 ++ [PosixPath.basename d], <[PosixPath.basename d := d]> c1)).
  { unfold list_by_path_visit. by rewrite !bool_decide_eq_true_2. }
  rewrite Hstep.
  destruct (foldl_visit_records manifest_name ys2 (res1 ++ [PosixPath.basename d])
              (<[PosixPath.basename d := d]> c1)) as (_ & _ & _ & Hkeep).
  { apply NoDup_app. split_and!; [done| |apply NoDup_singleton].
    intros x Hx ->%list_elem_of_singleton. done. }
  rewrite Hkeep; [by rewrite lookup_insert_eq|].
  right. apply elem_of_app. right. by left.
Qed.

Lemma first_directory_of_a_root_wins_witness :
  (list_by_path Nested.world MANIFEST_FILE "/r" ∅).2 !! PosixPath.basename "/r/x/pkg"
  = Some "/r/x/pkg".
Proof.
  apply (first_directory_of_a_root_wins Nested.world MANIFEST_FILE "/r" ∅
           [("/r", ["x"; "y"], []); ("/r/x", ["pkg"], [])]
           [("/r/y", ["pkg"], []); ("/r/y/pkg", [], ["manifest.xml"])]
           "/r/x/pkg" [] ["manifest.xml"]).
  - vm_compute. reflexivity.
  - by left.
  - intros d' dirs' files' Hin Hm.
    apply elem_of_cons in Hin as [[= -> -> ->]|Hin];
      [|apply list_elem_of_singleton in Hin as [= -> -> ->]];
      by apply elem_of_nil in Hm.
Defined.

(** ** Which directories the crawl descends into *)

Section Prune.

Lemma remove_first_sublist x l : remove_first x l `sublist_of` l.
Proof.
  induction l as [|y l IH]; simpl; [done|].
  destruct (decide (x = y)); [by apply sublist_cons|by apply sublist_skip].
Qed.

Lemma remove_first_visible x l :
  is_hidden x = true →
  filter (λ y, is_hidden y = false) (remove_first x l) = filter (λ y, is_hidden y = false) l.
Proof.
  intros Hx. induction l as [|y l IH]; simpl; [done|].
  destruct (decide (x = y)) as [<-|Hne].
  - rewrite filter_cons. rewrite decide_False; [done|]. by rewrite Hx.
  - rewrite !filter_cons. rewrite IH. done.
Qed.

Lemma prune_hidden_sublist fuel i dirs : prune_hidden fuel i dirs `sublist_of` dirs.
Proof.
  revert i dirs. induction fuel as [|fuel IH]; intros i dirs; simpl; [done|].
  destruct (dirs !! i) as [di|]; [|done].
  destruct (is_hidden di); [|apply IH].
  etrans; [apply IH|apply remove_first_sublist].
Qed.

Lemma prune_hidden_visible fuel i dirs :
  filter (λ y, is_hidden y = false) (prune_hidden fuel i dirs)
  = filter (λ y, is_hidden y = false) dirs.
Proof.
  revert i dirs. induction fuel as [|fuel IH]; intros i dirs; simpl; [done|].
  destruct (dirs !! i) as [di|]; [|done].
  destruct (is_hidden di) eqn:Hdi; [|apply IH].
  rewrite IH. by apply remove_first_visible.
Qed.

(** In a list without repetition the name at the iterator's index is
    the one [remove] takes out. *)
Lemma remove_first_at i di dirs :
  NoDup dirs → dirs !! i = Some di → remove_first di dirs = delete i dirs.
Proof.
  revert i. induction dirs as [|y l IH]; intros i Hnodup Hi; [done|].
  apply NoDup_cons in Hnodup as [Hy Hnodup]. simpl.
  destruct i as [|i]; simpl in Hi.
  - injection Hi as ->. by rewrite decide_True.
  - rewrite decide_False.
    + simpl. f_equal. by apply IH.
    + intros ->. apply Hy. by eapply list_elem_of_lookup_2.
Qed.

(** The names the iterator has passed stay where they are. *)
Lemma prune_hidden_passed fuel i dirs j :
  NoDup dirs → j < i → prune_hidden fuel i dirs !! j = dirs !! j.
Proof.
  revert i dirs. induction fuel as [|fuel IH]; intros i dirs Hnodup Hj; simpl; [done|].
  destruct (dirs !! i) as [di|] eqn:Hi; [|done].
  destruct (is_hidden di); [|apply IH; [done|lia]].
  rewrite (remove_first_at i) by done.
  rewrite IH; [by apply list_lookup_delete_lt| |lia].
  apply (sublist_NoDup _ dirs Hnodup), sublist_delete.
Qed.

End Prune.

(** A directory the crawl does not descend below. *)
Definition is_leaf (manifest_name : string) (files : list string) : Prop :=
  manifest_name ∈ files ∨ MANIFEST_FILE ∈ files ∨ "rospack_nosubdirs" ∈ files.

Lemma list_by_path_prune_leaf manifest_name files dirs :
  is_leaf manifest_name files → list_by_path_prune manifest_name files dirs = [].
Proof.
  unfold list_by_path_prune. intros [H|[H|H]]; repeat case_bool_decide; done.
Qed.

Lemma list_by_path_prune_inner manifest_name files dirs :
  ¬ is_leaf manifest_name files →
  list_by_path_prune manifest_name files dirs = prune_hidden (length dirs) 0 dirs.
Proof.
  unfold list_by_path_prune, is_leaf. intros H. repeat case_bool_decide; tauto.
Qed.

Lemma walk_node_children prune es d :
  walk_node prune (Dir es) d
  = (d, dir_names es, file_names es)
      :: flat_map (λ n, match assoc n es with
                        | Some c => walk_node prune c (PosixPath.join d n)
                        | None => []
                        end) (prune (file_names es) (dir_names es)).
Proof.
  cbn [walk_node]. f_equal. apply flat_map_ext. intros n.
  induction es as [|[n' c] es IH]; simpl; [done|].
  destruct (decide (n' = n)); [done|apply IH].
Qed.

Module Hidden.

Definition package : node := Dir [("manifest.xml", File "<package/>")].

(** A root whose listing starts with two hidden directories. *)
Definition fs : node :=
  Dir [("r", Dir [(".svn", Dir [("a", package)]); (".git", Dir [("b", package)]);
                  ("src", Dir [("c", package)])])].

Definition world : World :=
  {| fs_root := fs; cwd := "/"; get_ros_home := "/home/user/.ros";
     compute_package_paths := λ _ _, ["/r"];
     parse_manifest_file := λ _ _, Ok {| version := None; depends := []; rosdeps := [] |} |}.

End Hidden.

(** X3: the walk of [list_by_path] yields nothing below a directory
    that holds the target marker, [manifest.xml] or [rospack_nosubdirs];
    below any other directory it yields the whole walk of every
    subdirectory whose name does not start with a dot. *)
Theorem crawl_descends (manifest_name : string) (es : list (string * node)) (d : string) :
  (is_leaf manifest_name (file_names es) →
   walk_node (list_by_path_prune manifest_name) (Dir es) d
   = [(d, dir_names es, file_names es)])
  ∧ (¬ is_leaf manifest_name (file_names es) →
     ∀ n c y, assoc n es = Some c → is_dir c = true → is_hidden n = false →
       y ∈ walk_node (list_by_path_prune manifest_name) c (PosixPath.join d n) →
       y ∈ walk_node (list_by_path_prune manifest_name) (Dir es) d).
Proof.
  rewrite walk_node_children. split.
  - intros Hleaf. by rewrite list_by_path_prune_leaf.
  - intros Hinner n c y Hn Hdir Hvisible Hy. right.
    rewrite list_by_path_prune_inner by done.
    apply list_elem_of_In, in_flat_map. exists n. split.
    + apply list_elem_of_In.
      assert (Hin : n ∈ filter (λ y, is_hidden y = false) (dir_names es)).
      { apply list_elem_of_filter. split; [done|].
        unfold dir_names. apply list_elem_of_fmap. exists (n, c). split; [done|].
        apply list_elem_of_filter. split; [done|].
        clear -Hn. induction es as [|[n' c'] es IH]; simpl in Hn; [done|].
        destruct (decide (n' = n)) as [->|]; [injection Hn as ->; by left|].
        right. by apply IH. }
      rewrite <-(prune_hidden_visible (length (dir_names es)) 0) in Hin.
      by apply list_elem_of_filter in Hin as [_ Hin].
    + rewrite Hn. by apply list_elem_of_In.
Qed.

Lemma crawl_descends_witness :
  ("/r/src/c", [], ["manifest.xml"])
    ∈ walk_node (list_by_path_prune MANIFEST_FILE)
        (Dir [(".svn", Dir [("a", Hidden.package)]); (".git", Dir [("b", Hidden.package)]);
              ("src", Dir [("c", Hidden.package)])]) "/r".
Proof.
  apply (proj2 (crawl_descends MANIFEST_FILE _ "/r")) with "src" (Dir [("c", Hidden.package)]).
  - intros [H|[H|H]]; vm_compute in H; by apply elem_of_nil in H.
  - reflexivity.
  - reflexivity.
  - reflexivity.
  - vm_compute. right. left.
Defined.

(** X4: [dirs.remove] inside the comprehension that iterates [dirs]
    makes the iterator step over the name that follows a removed one:
    when the first name of the listing is hidden, the second one stays
    in [dirs], hidden or not, and the crawl descends into it. *)
Theorem name_after_hidden_is_kept (manifest_name : string) (files : list string)
    (a b : string) (rest : list string) :
  ¬ is_leaf manifest_name files →
  NoDup (a :: b :: rest) →
  is_hidden a = true →
  (a ∉ list_by_path_prune manifest_name files (a :: b :: rest))
  ∧ list_by_path_prune manifest_name files (a :: b :: rest) !! 0 = Some b.
Proof.
  intros Hinner Hnodup Ha. rewrite list_by_path_prune_inner by done.
  assert (Hstep : prune_hidden (length (a :: b :: rest)) 0 (a :: b :: rest)
                  = prune_hidden (S (length rest)) 1 (b :: rest)).
  { simpl. rewrite Ha. by rewrite decide_True. }
  rewrite Hstep. apply NoDup_cons in Hnodup as [Ha' Hnodup]. split.
  - intros Hin. apply Ha'. eapply elem_of_sublist; [exact Hin|]. apply prune_hidden_sublist.
  - by rewrite prune_hidden_passed by (done || lia).
Qed.

Lemma name_after_hidden_is_kept_witness :
  (".svn" ∉ list_by_path_prune MANIFEST_FILE [] [".svn"; ".git"; "src"])
  ∧ list_by_path_prune MANIFEST_FILE [] [".svn"; ".git"; "src"] !! 0 = Some ".git".
Proof.
  apply (name_after_hidden_is_kept MANIFEST_FILE [] ".svn" ".git" ["src"]).
  - intros [H|[H|H]]; by apply elem_of_nil in H.
  - repeat (apply NoDup_cons; split; [by vm_compute; intros ?%list_elem_of_In; simpl in *; intuition discriminate|]).
    apply NoDup_nil_2.
  - reflexivity.
Defined.

Example hidden_directory_is_crawled :
  (list_by_path Hidden.world MANIFEST_FILE "/r" ∅).1 = ["b"; "c"].
Proof. vm_compute. reflexivity. Qed.

(** ** When the cache reader accepts a snapshot *)

Section Accept.
Context (ros_root ros_package_path : string).

Lemma startswith_app p l :
  Str.startswith p l = true → l = p +:+ Str.drop (String.length p) l.
Proof.
  revert l. induction p as [|a p IH]; intros [|b l]; simpl; try done.
  destruct (decide (a = b)) as [->|]; [|done]. intros H.
  change (String b l = String b (p +:+ Str.drop (String.length p) l)).
  f_equal. by apply IH.
Qed.

Lemma startswith_prefix p v :
  Str.startswith p (p +:+ v) = true ∧ Str.drop (String.length p) (p +:+ v) = v.
Proof.
  induction p as [|a p IH]; [by destruct v|].
  change (String a p +:+ v) with (String a (p +:+ v)). simpl.
  by rewrite decide_True.
Qed.

(** [l] is the [#ROS_ROOT=] line, or the [#ROS_PACKAGE_PATH=] line the
    [elif] reaches. *)
Definition is_root_line (l : string) : bool := Str.startswith "#ROS_ROOT=" l.
Definition is_path_line (l : string) : bool :=
  negb (Str.startswith "#ROS_ROOT=" l) && Str.startswith "#ROS_PACKAGE_PATH=" l.

(** [cache[os.path.basename(l)] = l] for each path, in order. *)
Definition store_paths (cache : gmap string string) (paths : list string)
  : gmap string string :=
  foldl (λ c p, <[PosixPath.basename p := p]> c) cache paths.

Lemma root_line_no_data l : is_root_line l = true → is_data_line l = false.
Proof.
  unfold is_root_line. destruct l as [|c l]; [done|]. simpl.
  destruct (decide ("#"%char = c)) as [<-|]; done.
Qed.

Lemma path_line_no_data l : is_path_line l = true → is_data_line l = false.
Proof.
  unfold is_path_line. destruct l as [|c l]; [done|]. simpl.
  destruct (decide ("#"%char = c)) as [<-|]; [done|]. by rewrite andb_false_r.
Qed.

Lemma read_cache_lines_step l0 rest rv ppv (cache : gmap string string) :
  rejects ros_root ros_package_path (Str.drop_last l0) = false →
  read_cache_lines ros_root ros_package_path (l0 :: rest) rv ppv cache
  = read_cache_lines ros_root ros_package_path rest
      (rv || is_root_line (Str.drop_last l0)) (ppv || is_path_line (Str.drop_last l0))
      (if is_data_line (Str.drop_last l0)
       then <[PosixPath.basename (Str.drop_last l0) := Str.drop_last l0]> cache
       else cache).
Proof.
  intros Hok. destruct (is_data_line (Str.drop_last l0)) eqn:Hdata.
  - rewrite read_cache_lines_data by done.
    destruct (is_root_line (Str.drop_last l0)) eqn:Hr.
    { apply root_line_no_data in Hr. congruence. }
    destruct (is_path_line (Str.drop_last l0)) eqn:Hp.
    { apply path_line_no_data in Hp. congruence. }
    by rewrite !orb_false_r.
  - cbn [read_cache_lines]. unfold rejects, is_root_line, is_path_line in *.
    destruct (Str.drop_last l0) as [|c l] eqn:E.
    { simpl. by rewrite !orb_false_r. }
    cbn [is_data_line] in Hdata. apply negb_false_iff in Hdata. rewrite Hdata.
    destruct (Str.startswith "#ROS_ROOT=" (String c l)).
    { rewrite Hok. simpl. by rewrite orb_true_r, orb_false_r. }
    destruct (Str.startswith "#ROS_PACKAGE_PATH=" (String c l)).
    { rewrite Hok. simpl. by rewrite orb_true_r, orb_false_r. }
    simpl. by rewrite !orb_false_r.
Qed.

Lemma data_lines_cons l0 lines :
  data_lines (l0 :: lines)
  = if is_data_line (Str.drop_last l0) then Str.drop_last l0 :: data_lines lines
    else data_lines lines.
Proof.
  unfold data_lines. rewrite fmap_cons, filter_cons.
  destruct (is_data_line (Str.drop_last l0)); by case_decide.
Qed.

(** A file without a rejecting line is read to its end. *)
Lemma read_cache_lines_read lines rv ppv (cache : gmap string string) :
  Forall (λ l0, rejects ros_root ros_package_path (Str.drop_last l0) = false) lines →
  read_cache_lines ros_root ros_package_path lines rv ppv cache
  = ((rv || existsb is_root_line (Str.drop_last <$> lines))
     && (ppv || existsb is_path_line (Str.drop_last <$> lines)),
     store_paths cache (data_lines lines)).
Proof.
  intros Hok. revert rv ppv cache. induction Hok as [|l0 lines Hl0 _ IH]; intros rv ppv cache.
  { simpl. rewrite !orb_false_r. by destruct rv, ppv. }
  rewrite read_cache_lines_step by done. rewrite IH, data_lines_cons, fmap_cons.
  cbn [existsb]. rewrite !orb_assoc. f_equal.
  by destruct (is_data_line (Str.drop_last l0)).
Qed.

Lemma store_paths_lookup (cache : gmap string string) paths k :
  store_paths cache paths !! k
  = match last (filter (λ p, PosixPath.basename p = k) paths) with
    | Some p => Some p
    | None => cache !! k
    end.
Proof.
  unfold store_paths. induction paths as [|p paths IH] using rev_ind; [done|].
  rewrite foldl_app, filter_app. cbn [foldl]. rewrite filter_cons, filter_nil.
  destruct (decide (PosixPath.basename p = k)) as [<-|Hne].
  - by rewrite last_snoc, lookup_insert_eq.
  - rewrite app_nil_r, lookup_insert_ne by done. apply IH.
Qed.

End Accept.

Lemma read_rospack_cache_accepted (w : World) (cache_name : string)
    (cache : gmap string string) (ros_root ros_package_path text : string) :
  read_file w (PosixPath.join (get_ros_home w) cache_name) = Some text →
  (_read_rospack_cache w cache_name cache ros_root ros_package_path).1 = Ok true →
  Forall (λ l0, rejects ros_root ros_package_path (Str.drop_last l0) = false)
    (readlines text)
  ∧ (_read_rospack_cache w cache_name cache ros_root ros_package_path).2
    = store_paths cache (data_lines (readlines text)).
Proof.
  intros Hfile. unfold _read_rospack_cache.
  rewrite (read_file_exists _ _ _ Hfile), Hfile. cbn [negb].
  destruct (read_cache_lines ros_root ros_package_path (readlines text) false false cache)
    as [b c'] eqn:Hread. cbn [fst snd]. intros [= ->].
  assert (Hok : Forall (λ l0, rejects ros_root ros_package_path (Str.drop_last l0) = false)
                  (readlines text)).
  { apply Forall_forall. intros l0 Hin.
    destruct (rejects ros_root ros_package_path (Str.drop_last l0)) eqn:Hrej; [|done].
    pose proof (read_cache_lines_rejected ros_root ros_package_path _ _ false false cache
                  Hin Hrej) as Hfalse.
    by rewrite Hread in Hfalse. }
  split; [done|].
  rewrite read_cache_lines_read in Hread by done. by injection Hread as _ <-.
Qed.

(** X5: a snapshot that can be read is accepted exactly when no header
    line of it rejects and it has a [#ROS_ROOT=] line and a
    [#ROS_PACKAGE_PATH=] line with the configured values; the caller's
    dictionary then holds, over what it held, every data line under its
    final path component, a later line replacing an earlier one of the
    same name. *)
Theorem snapshot_accepted_iff (w : World) (cache_name : string)
    (cache : gmap string string) (ros_root ros_package_path text : string) :
  read_file w (PosixPath.join (get_ros_home w) cache_name) = Some text →
  ((_read_rospack_cache w cache_name cache ros_root ros_package_path).1 = Ok true ↔
     Forall (λ l0, rejects ros_root ros_package_path (Str.drop_last l0) = false)
       (readlines text)
     ∧ (∃ l0, l0 ∈ readlines text ∧ Str.drop_last l0 = "#ROS_ROOT=" +:+ ros_root)
     ∧ (∃ l0, l0 ∈ readlines text
              ∧ Str.drop_last l0 = "#ROS_PACKAGE_PATH=" +:+ ros_package_path))
  ∧ ((_read_rospack_cache w cache_name cache ros_root ros_package_path).1 = Ok true →
     (_read_rospack_cache w cache_name cache ros_root ros_package_path).2
     = store_paths cache (data_lines (readlines text))).
Proof.
  intros Hfile. unfold _read_rospack_cache.
  rewrite (read_file_exists _ _ _ Hfile), Hfile. cbn [negb].
  destruct (read_cache_lines ros_root ros_package_path (readlines text) false false cache)
    as [b c'] eqn:Hread. cbn [fst snd].
  assert (Hok : b = true →
            Forall (λ l0, rejects ros_root ros_package_path (Str.drop_last l0) = false)
              (readlines text)).
  { intros ->. apply Forall_forall. intros l0 Hin.
    destruct (rejects ros_root ros_package_path (Str.drop_last l0)) eqn:Hrej; [|done].
    pose proof (read_cache_lines_rejected ros_root ros_package_path _ _ false false cache
                  Hin Hrej) as Hfalse.
    by rewrite Hread in Hfalse. }
  split; [split|].
  - intros [= ->]. specialize (Hok eq_refl). split; [done|].
    rewrite read_cache_lines_read in Hread by done. injection Hread as Hb _.
    cbn [orb] in Hb. apply andb_true_iff in Hb as [Hr Hp].
    apply existsb_exists in Hr as (x & Hx%list_elem_of_In%list_elem_of_fmap & Hr).
    apply existsb_exists in Hp as (y & Hy%list_elem_of_In%list_elem_of_fmap & Hp).
    destruct Hx as (lx & -> & Hlx), Hy as (ly & -> & Hly).
    pose proof (proj1 (Forall_forall _ _) Hok _ Hlx) as Hokx.
    pose proof (proj1 (Forall_forall _ _) Hok _ Hly) as Hoky.
    split.
    + exists lx. split; [done|]. unfold is_root_line in Hr. unfold rejects in Hokx.
      rewrite Hr in Hokx. apply negb_false_iff, bool_decide_eq_true in Hokx.
      rewrite (startswith_app _ _ Hr) at 1. by rewrite Hokx.
    + exists ly. split; [done|]. unfold is_path_line in Hp.
      apply andb_true_iff in Hp as [Hnr%negb_true_iff Hp]. unfold rejects in Hoky.
      rewrite Hnr, Hp in Hoky. apply negb_false_iff, bool_decide_eq_true in Hoky.
      rewrite (startswith_app _ _ Hp) at 1. by rewrite Hoky.
  - intros (Hall & (lx & Hlx & Hx) & (ly & Hly & Hy)).
    rewrite read_cache_lines_read in Hread by done. injection Hread as <- _.
    cbn [orb]. f_equal. apply andb_true_iff. split.
    + apply existsb_exists. exists (Str.drop_last lx). split.
      * apply list_elem_of_In, list_elem_of_fmap. by exists lx.
      * rewrite Hx. apply startswith_prefix.
    + apply existsb_exists. exists (Str.drop_last ly). split.
      * apply list_elem_of_In, list_elem_of_fmap. by exists ly.
      * rewrite Hy. unfold is_path_line. apply andb_true_iff. split.
        -- vm_compute. reflexivity.
        -- apply startswith_prefix.
  - intros [= ->]. specialize (Hok eq_refl).
    rewrite read_cache_lines_read in Hread by done. by injection Hread as _ <-.
Qed.

Module FreshSnapshot.

(** A snapshot with both headers as configured for root [/a] and an
    empty package path; it lists two directories named [ghost], neither
    of which is on disk. *)
Definition snapshot : string :=
  "#ROS_ROOT=/a" +:+ StaleSnapshot.newline +:+ "#ROS_PACKAGE_PATH=" +:+ StaleSnapshot.newline
  +:+ "/opt/x/ghost" +:+ StaleSnapshot.newline +:+ "/opt/y/ghost" +:+ StaleSnapshot.newline.

Definition world : World := StaleSnapshot.world snapshot.
Definition rospack : ManifestManager := StaleSnapshot.rospack snapshot.

End FreshSnapshot.

Lemma snapshot_accepted_iff_witness :
  (_read_rospack_cache FreshSnapshot.world "rospack_cache" ∅ "/a" "").1 = Ok true
  ∧ (_read_rospack_cache FreshSnapshot.world "rospack_cache" ∅ "/a" "").2
    = store_paths ∅ (data_lines (readlines FreshSnapshot.snapshot)).
Proof.
  destruct (snapshot_accepted_iff FreshSnapshot.world "rospack_cache" ∅ "/a" ""
              FreshSnapshot.snapshot) as [Hiff Hstore].
  - vm_compute. reflexivity.
  - assert (Hacc : (_read_rospack_cache FreshSnapshot.world "rospack_cache" ∅ "/a" "").1
                   = Ok true).
    { apply Hiff. split_and!.
      - repeat constructor.
      - exists ("#ROS_ROOT=/a" +:+ StaleSnapshot.newline). split; [|reflexivity].
        vm_compute. left.
      - exists ("#ROS_PACKAGE_PATH=" +:+ StaleSnapshot.newline). split; [|reflexivity].
        vm_compute. right. left. }
    split; [done|by apply Hstore].
Defined.

(** X6: an accepted snapshot is the index, verbatim: no path is
    crawled, and a name resolves to the last data line of the snapshot
    with that final component, whatever the configured directories
    hold. *)
Theorem accepted_snapshot_is_the_index (w : World) (self : ManifestManager) (text : string) :
  _location_cache self = None →
  _package_paths self ≠ [] →
  read_file w (PosixPath.join (get_ros_home w) (_cache_name self)) = Some text →
  (_read_rospack_cache w (_cache_name self) ∅ (_ros_root self) (_ros_package_path self)).1
    = Ok true →
  ∀ name,
    (get_path w name self).1
    = match last (filter (λ p, PosixPath.basename p = name) (data_lines (readlines text))) with
      | Some p => Ok p
      | None => Raise (ResourceNotFound (PyStr name))
      end.
Proof.
  intros Hnone Hpaths Hfile Hacc name.
  pose proof (proj2 (read_rospack_cache_accepted w _ ∅ _ _ _ Hfile Hacc)) as Hstore.
  unfold get_path, bind. rewrite update_location_cache_eq, Hnone.
  unfold build_index. rewrite bool_decide_eq_false_2 by done.
  destruct (_read_rospack_cache w (_cache_name self) ∅ (_ros_root self)
              (_ros_package_path self)) as [r c] eqn:Hread.
  simpl in Hacc, Hstore. subst r c. cbn [fst snd]. unfold location_cache. simpl.
  rewrite store_paths_lookup, lookup_empty.
  by destruct (last _).
Qed.

Lemma accepted_snapshot_is_the_index_witness :
  (get_path FreshSnapshot.world "ghost" FreshSnapshot.rospack).1 = Ok "/opt/y/ghost"
  ∧ (get_path FreshSnapshot.world "pkgY" FreshSnapshot.rospack).1
    = Raise (ResourceNotFound (PyStr "pkgY")).
Proof.
  pose proof (accepted_snapshot_is_the_index FreshSnapshot.world FreshSnapshot.rospack
                FreshSnapshot.snapshot) as H.
  split; rewrite H; try (vm_compute; reflexivity); discriminate.
Defined.

(** ** The index over the life of an instance *)

(** X7: the index is built by the first query and never again: after
    any [get_path], every later [get_path] and [list] is answered from
    the dictionary built then and leaves the instance as it is, in
    whatever state [w'] the disk and the environment are by then. *)
Theorem index_is_built_once (w w' : World) (self : ManifestManager) (name name' : string) :
  let self1 := (get_path w name self).2 in
  get_path w' name' self1
  = (match index_of w self !! name' with
     | Some p => Ok p
     | None => Raise (ResourceNotFound (PyStr name'))
     end, self1)
  ∧ list_ w' self1 = (Ok (elements (dom (index_of w self))), self1).
Proof.
  intros self1. unfold self1. rewrite get_path_state.
  destruct (update_location_cache_sets w self) as [c Hc].
  unfold get_path, list_, bind. rewrite (update_location_cache_built w' _ _ Hc).
  unfold index_of. split; [|done]. by destruct (_ !! name').
Qed.

(** X8: [list] and [get_path] agree: the names [list] returns, each
    once, are exactly those [get_path] resolves. *)
Theorem list_names_are_resolvable (w : World) (self : ManifestManager) (l : list string) :
  (list_ w self).1 = Ok l →
  NoDup l ∧ ∀ name, name ∈ l ↔ ∃ p, (get_path w name self).1 = Ok p.
Proof.
  unfold list_, get_path, bind.
  destruct (_update_location_cache w self) as [[[]|e] self1]; [|done].
  simpl. intros [= <-]. split; [apply NoDup_elements|].
  intros name. rewrite elem_of_elements, elem_of_dom.
  destruct (location_cache self1 !! name) as [p|]; simpl.
  - split; [by exists p|by eexists].
  - split; [by intros [? ?]|by intros [? ?]].
Qed.

Lemma list_names_are_resolvable_witness :
  NoDup ["pkgY"; "pkgX"]
  ∧ ∀ name, name ∈ ["pkgY"; "pkgX"]
            ↔ ∃ p, (get_path Precedence.world name Precedence.rospack).1 = Ok p.
Proof.
  apply (list_names_are_resolvable Precedence.world Precedence.rospack).
  vm_compute. reflexivity.
Defined.

(** X9: an instance whose configuration yields no search directory
    finds nothing and reads nothing: every name is not found and [list]
    is empty, even with a snapshot in the cache home that matches the
    configuration. *)
Theorem no_search_path_no_resource (w : World)
    (manifest_name cache_name ros_root ros_package_path : string) :
  compute_package_paths w ros_root ros_package_path = [] →
  let self := init w manifest_name cache_name ros_root ros_package_path in
  (list_ w self).1 = Ok []
  ∧ ∀ name, (get_path w name self).1 = Raise (ResourceNotFound (PyStr name)).
Proof.
  intros Hpaths self. unfold list_, get_path, bind, _update_location_cache.
  simpl. rewrite Hpaths. simpl. unfold location_cache. simpl. split.
  - by rewrite dom_empty_L, elements_empty.
  - intros name. by rewrite lookup_empty.
Qed.

Module NoPath.

(** The world of [FreshSnapshot], with a configuration that yields no
    search directory. *)
Definition world : World :=
  {| fs_root := StaleSnapshot.fs FreshSnapshot.snapshot; cwd := "/";
     get_ros_home := "/home/user/.ros";
     compute_package_paths := λ _ _, [];
     parse_manifest_file := λ _ _, Ok {| version := None; depends := []; rosdeps := [] |} |}.

End NoPath.

Lemma no_search_path_no_resource_witness :
  (list_ NoPath.world (RosPack NoPath.world "/a" "")).1 = Ok []
  ∧ ∀ name, (get_path NoPath.world name (RosPack NoPath.world "/a" "")).1
            = Raise (ResourceNotFound (PyStr name)).
Proof.
  apply (no_search_path_no_resource NoPath.world MANIFEST_FILE "rospack_cache" "/a" "").
  reflexivity.
Defined.

(** ** Manifests *)

(** X10: a manifest is parsed once: after [get_manifest] has returned
    it, every later call returns the same object without reading the
    disk.  A failure is not memoized: [_manifests] is as it was, with no
    entry for the name, so the next call parses again. *)
Theorem manifest_is_parsed_once (w w' : World) (k : string) (self self1 : ManifestManager)
    (r : result Manifest) :
  get_manifest w k self = (r, self1) →
  (∀ m, r = Ok m → get_manifest w' k self1 = (Ok m, self1))
  ∧ (∀ e, r = Raise e → _manifests self1 = _manifests self ∧ _manifests self1 !! k = None).
Proof.
  intros Hcall. pose proof (get_manifest_ext w _ _ _ _ Hcall) as (_ & _ & _ & Hok & Hraise).
  split.
  - intros m ->. by apply get_manifest_cached, Hok.
  - intros e ->. split; [by eapply Hraise|]. rewrite (Hraise e eq_refl).
    unfold get_manifest in Hcall. by destruct (_manifests self !! k).
Qed.

Lemma manifest_is_parsed_once_witness :
  let w := Graphs.world Graphs.chain in
  let self1 := (get_manifest w "p1" (Graphs.rospack Graphs.chain)).2 in
  get_manifest (Graphs.world Graphs.chain_edited) "p1" self1
  = (Ok (Graphs.package ["p2"] ["boost"]), self1).
Proof.
  intros w self1.
  apply (proj1 (manifest_is_parsed_once w (Graphs.world Graphs.chain_edited) "p1"
                  (Graphs.rospack Graphs.chain) self1 (Ok (Graphs.package ["p2"] ["boost"]))
                  ltac:(vm_compute; reflexivity))).
  reflexivity.
Defined.

(** ** What a call of [get_depends] leaves untouched *)

Section OnlyAdds.
Context (w : World).

Lemma update_location_cache_keeps self c :
  _location_cache self = Some c →
  _location_cache (_update_location_cache w self).2 = Some c.
Proof. intros H. by rewrite (update_location_cache_built w _ _ H). Qed.

Lemma get_manifest_keeps_index k self r self' c :
  get_manifest w k self = (r, self') →
  _location_cache self = Some c → _location_cache self' = Some c.
Proof.
  intros Hcall Hc. unfold get_manifest in Hcall.
  destruct (_manifests self !! k); [by injection Hcall as _ <-|].
  unfold _load_manifest, bind in Hcall.
  pose proof (get_path_state w k self) as Hstate.
  destruct (get_path w k self) as [[p|e] self1]; simpl in Hstate; subst self1.
  - destruct (parse_manifest_file w p _); injection Hcall as _ <-; simpl;
      by apply update_location_cache_keeps.
  - injection Hcall as _ <-. by apply update_location_cache_keeps.
Qed.

Lemma Deps_keeps_index :
  (∀ name self r self', Deps w name self r self' →
     ∀ c, _location_cache self = Some c → _location_cache self' = Some c)
  ∧ (∀ name names self (r : result unit) self', DepsLoop w name names self r self' →
       ∀ c, _location_cache self = Some c → _location_cache self' = Some c).
Proof.
  apply Deps_DepsLoop_ind.
  - done.
  - intros name self e self1 _ Hm c Hc. by eapply get_manifest_keeps_index.
  - intros name self m self1 e self2 _ Hm _ IH c Hc. apply IH. simpl.
    by eapply get_manifest_keeps_index.
  - intros name self m self1 self2 self3 _ Hm _ IH -> c Hc. simpl. apply IH. simpl.
    by eapply get_manifest_keeps_index.
  - done.
  - intros name p rest self e self1 _ IH c Hc. by apply IH.
  - intros name p rest self r self1 res self2 _ IHp _ IHrest c Hc.
    apply IHrest. simpl. by apply IHp.
Qed.

End OnlyAdds.

(** X11: a call of [get_depends], with either flag and whatever its
    outcome, only adds to the instance: the configuration and the
    secondary cache are as before, and every manifest, every closure and
    the index the instance held are still there, unchanged. *)
Theorem get_depends_only_adds (w : World) (fuel : nat) (name : string) (implicit : bool)
    (self self' : ManifestManager) (r : result (list string)) :
  get_depends w fuel name implicit self = Some (r, self') →
  static self' = static self
  ∧ _rosdeps_cache self' = _rosdeps_cache self
  ∧ (∀ k m, _manifests self !! k = Some m → _manifests self' !! k = Some m)
  ∧ (∀ k s, _depends_cache self !! k = Some s → _depends_cache self' !! k = Some s)
  ∧ (∀ c, _location_cache self = Some c → _location_cache self' = Some c).
Proof.
  intros Hcall. destruct implicit.
  - unfold get_depends in Hcall. simpl in Hcall.
    pose proof (get_depends_implicit_sound w _ _ _ _ _ Hcall) as Hdeps.
    pose proof (proj1 (Deps_frame w) _ _ _ _ Hdeps) as (Hext & Hr & Hkeep & _).
    split_and!; [apply (ext_static w _ _ Hext)|done|apply (ext_manifests w _ _ Hext)|done|].
    apply (proj1 (Deps_keeps_index w) _ _ _ _ Hdeps).
  - unfold get_depends, liftF, bind, ret in Hcall. simpl in Hcall.
    destruct (get_manifest w name self) as [[m|e] s1] eqn:Hm; injection Hcall as _ <-;
      pose proof (get_manifest_ext w _ _ _ _ Hm) as (Hext & Hd & Hr & _);
      (split_and!; [apply (ext_static w _ _ Hext)|done|apply (ext_manifests w _ _ Hext)
                   |by rewrite Hd|intros c; by eapply get_manifest_keeps_index]).
Qed.

Lemma get_depends_only_adds_witness :
  let w := Graphs.world Graphs.mutual in
  let self := state_after (get_depends w 5 "P2" true) (Graphs.rospack Graphs.mutual) in
  let self' := state_after (get_depends w 5 "P1" true) self in
  static self' = static self
  ∧ _rosdeps_cache self' = _rosdeps_cache self
  ∧ (∀ k m, _manifests self !! k = Some m → _manifests self' !! k = Some m)
  ∧ (∀ k s, _depends_cache self !! k = Some s → _depends_cache self' !! k = Some s)
  ∧ (∀ c, _location_cache self = Some c → _location_cache self' = Some c).
Proof.
  intros w self self'.
  apply (get_depends_only_adds w 5 "P1" true self self' (Ok ["P2"])).
  vm_compute. reflexivity.
Defined.

(** ** The closure and the dependency graph *)

Section Reach.
Context (w : World).

(** [reaches self k e]: there is a path of one or more dependency
    edges from [k] to [e], each edge declared by the manifest the
    instance sees for its origin. *)
Inductive reaches (self : ManifestManager) : string → string → Prop :=
| reaches_edge k m d :
    manifest_view w self k = Some m → d ∈ depends m → reaches self k d
| reaches_path k m d e :
    manifest_view w self k = Some m → d ∈ depends m → reaches self d e →
    reaches self k e.

Lemma reaches_ext self self' k e :
  ext w self self' → reaches self k e ↔ reaches self' k e.
Proof.
  intros Hext. split; induction 1 as [k m d Hk Hd|k m d e Hk Hd _ IH].
  - eapply reaches_edge; [|done]. by rewrite (ext_view w _ _ Hext).
  - eapply reaches_path; [|done|done]. by rewrite (ext_view w _ _ Hext).
  - eapply reaches_edge; [|done]. by rewrite <-(ext_view w _ _ Hext).
  - eapply reaches_path; [|done|done]. by rewrite <-(ext_view w _ _ Hext).
Qed.

(** Every name in an entry is reached from the name of the entry. *)
Definition entries_reach (self : ManifestManager) : Prop :=
  ∀ k s d, _depends_cache self !! k = Some s → d ∈ s → reaches self k d.

Lemma entries_reach_ext self self' :
  ext w self self' → _depends_cache self' = _depends_cache self →
  entries_reach self → entries_reach self'.
Proof.
  intros Hext Hd Hinv k s d Hs Hin. rewrite Hd in Hs.
  apply (reaches_ext _ _ _ _ Hext). by eapply Hinv.
Qed.

Lemma Deps_entries_reach :
  (∀ name self r self', Deps w name self r self' →
     entries_reach self → entries_reach self')
  ∧ (∀ name names self (r : result unit) self', DepsLoop w name names self r self' →
       (∀ p, p ∈ names → reaches self name p) →
       entries_reach self → entries_reach self').
Proof.
  apply Deps_DepsLoop_ind.
  - done.
  - intros name self e self1 _ Hm Hinv.
    apply get_manifest_ext in Hm as (Hext & Hd & _). by eapply entries_reach_ext.
  - intros name self m self1 e self2 _ Hm _ IH Hinv.
    pose proof (get_manifest_view w _ _ _ _ Hm) as Hview.
    apply get_manifest_ext in Hm as (Hext & Hd & _).
    assert (Hext1 : ext w self (placeholder name self1)).
    { eapply ext_trans; [done|apply ext_set_depends_cache]. }
    apply IH.
    + intros p Hp. apply (reaches_ext _ _ _ _ Hext1). by eapply reaches_edge.
    + intros k s d Hs Hin. apply (reaches_ext _ _ _ _ Hext1).
      unfold placeholder in Hs. simpl in Hs. destruct (decide (name = k)) as [<-|Hne].
      * rewrite lookup_insert_eq in Hs. injection Hs as <-. set_solver + Hin.
      * rewrite lookup_insert_ne, Hd in Hs by done. by eapply Hinv.
  - intros name self m self1 self2 self3 _ Hm Hloop IH -> Hinv.
    pose proof (proj2 (Deps_frame w) _ _ _ _ _ Hloop) as (Hext2 & _).
    pose proof (get_manifest_view w _ _ _ _ Hm) as Hview.
    apply get_manifest_ext in Hm as (Hext & Hd & _).
    assert (Hext1 : ext w self (placeholder name self1)).
    { eapply ext_trans; [done|apply ext_set_depends_cache]. }
    assert (Hinv2 : entries_reach self2).
    { apply IH.
      - intros p Hp. apply (reaches_ext _ _ _ _ Hext1). by eapply reaches_edge.
      - intros k s d Hs Hin. apply (reaches_ext _ _ _ _ Hext1).
        unfold placeholder in Hs. simpl in Hs. destruct (decide (name = k)) as [<-|Hne].
        + rewrite lookup_insert_eq in Hs. injection Hs as <-. set_solver + Hin.
        + rewrite lookup_insert_ne, Hd in Hs by done. by eapply Hinv. }
    intros k s d Hs Hin. unfold depends_update in *. cbn [snd] in *.
    apply (reaches_ext self2); [apply ext_set_depends_cache|].
    simpl in Hs. destruct (decide (name = k)) as [<-|Hne].
    + rewrite lookup_insert_eq in Hs. injection Hs as <-.
      apply elem_of_union in Hin as [Hin|Hin%elem_of_list_to_set].
      * unfold entry in Hin. destruct (_depends_cache self2 !! name) as [s2|] eqn:Hs2;
          simpl in Hin; [by eapply Hinv2|set_solver + Hin].
      * apply (reaches_ext _ _ _ _ Hext2), (reaches_ext _ _ _ _ Hext1).
        by eapply reaches_edge.
    + rewrite lookup_insert_ne in Hs by done. by eapply Hinv2.
  - done.
  - intros name p rest self e self1 _ IH _ Hinv. by apply IH.
  - intros name p rest self r self1 res self2 Hp IHp _ IHrest Hnames Hinv.
    pose proof (proj1 (Deps_frame w) _ _ _ _ Hp) as (Hext & _ & _ & Hentry).
    destruct (Hentry r eq_refl) as (sp & Hsp & ->).
    specialize (IHp Hinv). unfold depends_update in *. cbn [snd] in *.
    assert (Hext1 : ext w self (set_depends_cache self1
              (<[name := entry self1 name ∪ list_to_set (elements sp)]>
                 (_depends_cache self1)))).
    { eapply ext_trans; [done|apply ext_set_depends_cache]. }
    apply IHrest.
    + intros q Hq. apply (reaches_ext _ _ _ _ Hext1), Hnames. by right.
    + intros k s d Hs Hin.
      apply (reaches_ext self1); [apply ext_set_depends_cache|].
      simpl in Hs. destruct (decide (name = k)) as [<-|Hne].
      * rewrite lookup_insert_eq in Hs. injection Hs as <-.
        apply elem_of_union in Hin as [Hin|Hin%elem_of_list_to_set%elem_of_elements].
        -- unfold entry in Hin. destruct (_depends_cache self1 !! name) as [s1|] eqn:Hs1;
             simpl in Hin; [by eapply IHp|set_solver + Hin].
        -- assert (Hnp : reaches self1 name p).
           { apply (reaches_ext _ _ _ _ Hext), Hnames. by left. }
           assert (Hpd : reaches self1 p d) by (by eapply IHp).
           clear -Hnp Hpd. induction Hnp as [k m p Hk Hp|k m q p Hk Hq _ IH].
           ++ by eapply reaches_path.
           ++ eapply reaches_path; [done|done|]. by apply IH.
      * rewrite lookup_insert_ne in Hs by done. by eapply IHp.
Qed.


End Reach.

(** X12: [get_depends(name, True)] returns only names that [name]
    reaches along dependency edges, on every graph, with or without
    cycles (for an instance whose entries hold only reached names, as a
    new instance does). *)
Theorem closure_is_reachable (w : World) (fuel : nat) (name : string)
    (self self' : ManifestManager) (l : list string) :
  entries_reach w self →
  get_depends w fuel name true self = Some (Ok l, self') →
  entries_reach w self' ∧ ∀ d, d ∈ l → reaches w self name d.
Proof.
  intros Hinv Hcall. unfold get_depends in Hcall. simpl in Hcall.
  apply get_depends_implicit_sound in Hcall as Hdeps.
  pose proof (proj1 (Deps_frame w) _ _ _ _ Hdeps) as (Hext & _ & _ & Hentry).
  destruct (Hentry l eq_refl) as (s & Hs & ->).
  pose proof (proj1 (Deps_entries_reach w) _ _ _ _ Hdeps Hinv) as Hinv'.
  split; [done|]. intros d Hd%elem_of_elements.
  apply (reaches_ext w _ _ _ _ Hext). by eapply Hinv'.
Qed.

Lemma closure_is_reachable_witness :
  let w := Graphs.world Graphs.mutual in
  let self' := state_after (get_depends w 5 "P1" true) (Graphs.rospack Graphs.mutual) in
  entries_reach w self'
  ∧ ∀ d, d ∈ ["P1"; "P2"] → reaches w (Graphs.rospack Graphs.mutual) "P1" d.
Proof.
  intros w self'.
  apply (closure_is_reachable w 5 "P1" (Graphs.rospack Graphs.mutual) self').
  - intros k s d Hs. vm_compute in Hs. done.
  - vm_compute. reflexivity.
Defined.



(** X14: when [get_depends(name, True)] raises, the placeholder of
    [name] stays behind exactly when the manifest of [name] itself could
    be loaded: the failure came from a dependency.  The next call on the
    instance then does not raise but returns what the entry held at the
    failure.  When the manifest of [name] could not be loaded no entry
    is left. *)
Theorem failed_closure_leaves_entry (w w' : World) (fuel fuel' : nat) (name : string)
    (self self' : ManifestManager) (e : exn) :
  get_depends w fuel name true self = Some (Raise e, self') →
  (is_Some (manifest_view w self name) → 0 < fuel' →
     ∃ s, _depends_cache self' !! name = Some s
          ∧ get_depends w' fuel' name true self' = Some (Ok (elements s), self'))
  ∧ (manifest_view w self name = None → _depends_cache self' !! name = None).
Proof.
  intros Hcall. unfold get_depends in Hcall. simpl in Hcall.
  apply get_depends_implicit_sound in Hcall as Hdeps.
  inversion Hdeps as [|? ? ? ? Hnone Hm|? ? m ? ? ? Hnone Hm Hloop|]; subst.
  - pose proof (get_manifest_ext w _ _ _ _ Hm) as (_ & Hd & _).
    split; [|by rewrite Hd].
    intros [m Hview]. unfold manifest_view in Hview. by rewrite Hm in Hview.
  - split.
    + intros _ Hfuel.
      pose proof (proj2 (Deps_frame w) _ _ _ _ _ Hloop) as (_ & _ & _ & Hgrow).
      destruct (Hgrow ∅) as (s & Hs & _).
      { unfold placeholder. simpl. by rewrite lookup_insert_eq. }
      exists s. split; [done|]. unfold get_depends. simpl.
      destruct fuel' as [|fuel']; [lia|]. cbn [get_depends_implicit]. by rewrite Hs.
    + intros Hview. unfold manifest_view in Hview. by rewrite Hm in Hview.
Qed.

Lemma failed_closure_leaves_entry_witness :
  let table := [("P", Graphs.package ["Q"; "Missing"] ["boost"]);
                ("Q", Graphs.package [] ["zlib"])] in
  let w := Graphs.world table in
  let self' := state_after (get_depends w 5 "P" true) (Graphs.rospack table) in
  ∃ s, _depends_cache self' !! "P" = Some s
       ∧ get_depends w 1 "P" true self' = Some (Ok (elements s), self').
Proof.
  intros table w self'.
  apply (failed_closure_leaves_entry w w 5 1 "P" (Graphs.rospack table) self'
           (ResourceNotFound (PyStr "Missing"))).
  - vm_compute. reflexivity.
  - exists (Graphs.package ["Q"; "Missing"] ["boost"]). vm_compute. reflexivity.
  - lia.
Defined.

(** ** The secondary closure over the life of an instance *)

Section RosdepsCalls.
Context (w : World).

Lemma get_rosdeps_direct_keeps p self r self' :
  get_rosdeps_direct w p self = (r, self') → _rosdeps_cache self' = _rosdeps_cache self.
Proof.
  unfold get_rosdeps_direct, bind, ret.
  destruct (get_manifest w p self) as [[m|e] s1] eqn:Hm; intros [= _ <-];
    by apply get_manifest_ext in Hm as (_ & _ & Hr & _).
Qed.

Lemma rosdeps_loop_keeps package packages self r self' :
  rosdeps_loop w package packages self = (r, self') →
  is_Some (_rosdeps_cache self !! package) → is_Some (_rosdeps_cache self' !! package).
Proof.
  revert self. induction packages as [|p rest IH]; intros self; [by intros [= _ <-]|].
  cbn [rosdeps_loop]. unfold bind at 1.
  destruct (get_rosdeps_direct w p self) as [[l|e] self1] eqn:Hp;
    apply get_rosdeps_direct_keeps in Hp.
  - unfold bind at 1. cbn [rosdeps_update]. intros Hrest _.
    apply (IH _ Hrest). simpl. by rewrite lookup_insert_eq.
  - intros [= _ <-]. by rewrite Hp.
Qed.

Lemma implicit_rosdeps_entry fuel package self r self' :
  _implicit_rosdeps w fuel package self = Some (r, self') →
  ∃ s, _rosdeps_cache self' !! package = Some s ∧ ∀ l, r = Ok l → l = elements s.
Proof.
  unfold _implicit_rosdeps.
  destruct (_rosdeps_cache self !! package) as [s|] eqn:Hs.
  { intros [= <- <-]. exists s. split; [done|]. by intros l [= <-]. }
  unfold bindF at 1.
  set (self0 := set_rosdeps_cache self (<[package:=∅]> (_rosdeps_cache self))).
  assert (H0 : is_Some (_rosdeps_cache self0 !! package)).
  { unfold self0. simpl. by rewrite lookup_insert_eq. }
  unfold bindF at 1.
  destruct (get_depends w fuel package true self0) as [[[packages|e] self1]|] eqn:Hdeps;
    [| |done]; unfold get_depends in Hdeps; simpl in Hdeps;
    apply get_depends_implicit_frame in Hdeps as (_ & Hr1 & _); rewrite <-Hr1 in H0.
  2:{ intros [= <- <-]. destruct H0 as [s0 H0]. by exists s0. }
  unfold bindF at 1, liftF at 1.
  destruct (rosdeps_loop w package packages self1) as [[[]|e] self2] eqn:Hloop;
    apply rosdeps_loop_keeps in Hloop; [|done| |done].
  2:{ intros [= <- <-]. destruct Hloop as [s0 Hl]. by exists s0. }
  unfold bindF at 1, liftF at 1.
  destruct (get_manifest w package self2) as [[m|e] self3] eqn:Hm;
    apply get_manifest_ext in Hm as (_ & _ & Hr3 & _).
  2:{ intros [= <- <-]. rewrite Hr3. destruct Hloop as [s0 Hl]. by exists s0. }
  unfold bindF, liftF. cbn [rosdeps_update]. intros [= <- <-]. simpl.
  rewrite lookup_insert_eq. eexists. split; [done|]. by intros l [= <-].
Qed.

Lemma implicit_rosdeps_total fuel package self :
  pending w self < fuel → ∃ r self', _implicit_rosdeps w fuel package self = Some (r, self').
Proof.
  intros Hfuel. unfold _implicit_rosdeps.
  destruct (_rosdeps_cache self !! package) as [s|]; [by eexists _, _|].
  unfold bindF at 1.
  set (self0 := set_rosdeps_cache self (<[package:=∅]> (_rosdeps_cache self))).
  assert (Hp : pending w self0 ≤ pending w self).
  { apply pending_mono; [apply ext_set_rosdeps_cache|]. intros k s Hk. by exists s. }
  destruct (get_depends_implicit_total w fuel package self0) as (r & self1 & Hcall); [lia|].
  unfold bindF at 1. unfold get_depends. simpl. rewrite Hcall.
  destruct r as [packages|e]; [|by eexists _, _].
  unfold bindF at 1, liftF at 1.
  destruct (rosdeps_loop w package packages self1) as [[[]|e] self2]; [|by eexists _, _].
  unfold bindF at 1, liftF at 1.
  destruct (get_manifest w package self2) as [[m|e] self3]; [|by eexists _, _].
  unfold bindF, liftF. by eexists _, _.
Qed.

End RosdepsCalls.

(** X15: [get_rosdeps(package, True)] terminates on every dependency
    graph, and every call that ends, with a value or with a raise, leaves
    an entry for [package]: the next call on the instance reads nothing
    and returns that entry, which is the value of the first call when it
    returned one.  So a failed call is answered by a value the next
    time. *)
Theorem rosdeps_closure_is_memoized (w w' : World) (fuel fuel' : nat) (package : string)
    (self : ManifestManager) :
  pending w self < fuel →
  ∃ r self' l,
    get_rosdeps w fuel package true self = Some (r, self')
    ∧ get_rosdeps w' fuel' package true self' = Some (Ok l, self')
    ∧ ∀ l0, r = Ok l0 → l = l0.
Proof.
  intros Hfuel. unfold get_rosdeps.
  destruct (implicit_rosdeps_total w fuel package self Hfuel) as (r & self' & Hcall).
  destruct (implicit_rosdeps_entry w _ _ _ _ _ Hcall) as (s & Hs & Hl).
  exists r, self', (elements s). split_and!; [done| |].
  - unfold _implicit_rosdeps. by rewrite Hs.
  - intros l0 Hr. symmetry. by apply Hl.
Qed.

Lemma rosdeps_closure_is_memoized_witness :
  let w := Graphs.world Graphs.chain in
  ∃ r self' l,
    get_rosdeps w 5 "p1" true (Graphs.rospack Graphs.chain) = Some (r, self')
    ∧ get_rosdeps (Graphs.world Graphs.chain_edited) 0 "p1" true self' = Some (Ok l, self')
    ∧ ∀ l0, r = Ok l0 → l = l0.
Proof.
  intros w.
  apply (rosdeps_closure_is_memoized w (Graphs.world Graphs.chain_edited) 5 0 "p1"
           (Graphs.rospack Graphs.chain)).
  vm_compute. lia.
Defined.

(** A call for a name that is no package raises and leaves the empty
    placeholder: the second call returns the empty list. *)
Example failed_rosdeps_call_is_answered :
  let w := Graphs.world Graphs.chain in
  let self1 := state_after (get_rosdeps w 5 "nowhere" true) (Graphs.rospack Graphs.chain) in
  fst <$> get_rosdeps w 5 "nowhere" true (Graphs.rospack Graphs.chain)
    = Some (Raise (ResourceNotFound (PyStr "nowhere")))
  ∧ fst <$> get_rosdeps w 5 "nowhere" true self1 = Some (Ok []).
Proof. split; vm_compute; reflexivity. Qed.

(** ** Walking up the directories *)

Section WalkUp.
Context (w : World).

Lemma stack_of_loop_nearest fuel d s :
  stack_of_loop w fuel d = Some (Some s) →
  ∃ k, s = PosixPath.basename (Nat.iter k PosixPath.dirname d)
       ∧ path_exists w (PosixPath.join (Nat.iter k PosixPath.dirname d) STACK_FILE) = true
       ∧ PosixPath.dirname (Nat.iter k PosixPath.dirname d) ≠ Nat.iter k PosixPath.dirname d
       ∧ ∀ j, j < k →
           path_exists w (PosixPath.join (Nat.iter j PosixPath.dirname d) STACK_FILE) = false.
Proof.
  revert d. induction fuel as [|fuel IH]; intros d; [done|].
  cbn [stack_of_loop].
  destruct (bool_decide (d ≠ "") && bool_decide (PosixPath.dirname d ≠ d)) eqn:Hc; [|done].
  apply andb_true_iff in Hc as [_ Hc%bool_decide_eq_true].
  destruct (path_exists w (PosixPath.join d STACK_FILE)) eqn:He.
  - intros [= <-]. exists 0. split_and!; [done..|]. intros j Hj. lia.
  - intros (k & -> & Hk & Hroot & Hbelow)%IH. exists (S k).
    rewrite Nat.iter_succ_r. split_and!; [done..|].
    intros [|j] Hj; [done|]. rewrite Nat.iter_succ_r. apply Hbelow. lia.
Qed.

(** The directories [get_package_name] tests: [path] as it was given,
    then the directory of its canonical form and the directories above
    it. *)
Definition candidate (path parent : string) (k : nat) : string :=
  match k with
  | 0 => path
  | S k => Nat.iter k PosixPath.dirname parent
  end.

Lemma candidate_shift path parent k :
  candidate parent (PosixPath.dirname parent) k = candidate path parent (S k).
Proof. destruct k as [|k]; [done|]. simpl candidate. by rewrite <-Nat.iter_succ_r. Qed.

Lemma package_name_loop_spec fuel path parent :
  String.length parent + 1 < fuel →
  ∃ k, package_name_loop w fuel path parent = Some (candidate path parent k)
       ∧ (∀ j, j < k →
            path_exists w (PosixPath.join (candidate path parent j) MANIFEST_FILE) = false
            ∧ candidate path parent (S j) ≠ candidate path parent j)
       ∧ (path_exists w (PosixPath.join (candidate path parent k) MANIFEST_FILE) = true
          ∨ candidate path parent (S k) = candidate path parent k).
Proof.
  revert path parent. induction fuel as [|fuel IH]; intros path parent Hfuel; [lia|].
  cbn [package_name_loop].
  destruct (path_exists w (PosixPath.join path MANIFEST_FILE)) eqn:He; cbn [negb andb].
  { exists 0. split_and!; [done| |by left]. intros j Hj. lia. }
  destruct (decide (parent = path)) as [->|Hne].
  { rewrite bool_decide_eq_false_2 by (intros H; by apply H).
    exists 0. split_and!; [done| |by right]. intros j Hj. lia. }
  rewrite bool_decide_eq_true_2 by done.
  assert (Hfirst : ∀ j, j < 1 →
            path_exists w (PosixPath.join (candidate path parent j) MANIFEST_FILE) = false
            ∧ candidate path parent (S j) ≠ candidate path parent j).
  { intros j Hj. assert (j = 0) as -> by lia. done. }
  destruct (decide (PosixPath.dirname parent = parent)) as [Hfix|Hmove].
  - destruct fuel as [|fuel]; [lia|]. cbn [package_name_loop]. exists 1.
    split_and!; [|done|].
    + destruct (path_exists w (PosixPath.join parent MANIFEST_FILE)); cbn [negb andb]; [done|].
      by rewrite bool_decide_eq_false_2 by (intros H; by apply H).
    + right. done.
  - destruct (IH parent (PosixPath.dirname parent)) as (k & Hloop & Hbelow & Hend).
    { pose proof (dirname_shorter parent Hmove). lia. }
    exists (S k). rewrite Hloop. rewrite !(candidate_shift path) in Hend.
    rewrite (candidate_shift path). split_and!; [done| |done].
    intros [|j] Hj; [apply Hfirst; lia|].
    rewrite <-!(candidate_shift path). apply Hbelow. lia.
Qed.

End WalkUp.

(** X16: the stack [stack_of] names is the nearest directory, from the
    directory of the package upwards, that holds [stack.xml]; the
    topmost directory is never taken for a stack. *)
Theorem stack_of_is_nearest (w : World) (fuel : nat) (package s : string)
    (self self' : ManifestManager) :
  stack_of w fuel package self = Some (Ok (Some s), self') →
  ∃ d k,
    index_of w self !! package = Some d
    ∧ s = PosixPath.basename (Nat.iter k PosixPath.dirname d)
    ∧ path_exists w (PosixPath.join (Nat.iter k PosixPath.dirname d) STACK_FILE) = true
    ∧ PosixPath.dirname (Nat.iter k PosixPath.dirname d) ≠ Nat.iter k PosixPath.dirname d
    ∧ ∀ j, j < k →
        path_exists w (PosixPath.join (Nat.iter j PosixPath.dirname d) STACK_FILE) = false.
Proof.
  unfold stack_of, bindF, liftF.
  destruct (get_path w package self) as [[d|e] self1] eqn:Hg; [|done].
  apply get_path_ok in Hg as [Hd _].
  destruct (stack_of_loop w fuel d) as [[s'|]|] eqn:Hloop; [|done..].
  intros [= -> _]. exists d. apply stack_of_loop_nearest in Hloop as (k & Hk). by exists k.
Qed.

Lemma stack_of_is_nearest_witness :
  ∃ d k,
    index_of Standalone.world Standalone.rospack !! "inner" = Some d
    ∧ "tools" = PosixPath.basename (Nat.iter k PosixPath.dirname d)
    ∧ path_exists Standalone.world
        (PosixPath.join (Nat.iter k PosixPath.dirname d) STACK_FILE) = true
    ∧ PosixPath.dirname (Nat.iter k PosixPath.dirname d) ≠ Nat.iter k PosixPath.dirname d
    ∧ ∀ j, j < k →
        path_exists Standalone.world
          (PosixPath.join (Nat.iter j PosixPath.dirname d) STACK_FILE) = false.
Proof.
  apply (stack_of_is_nearest Standalone.world 20 "inner" "tools" Standalone.rospack
           (state_after (stack_of Standalone.world 20 "inner") Standalone.rospack)).
  vm_compute. reflexivity.
Defined.

(** X17: [get_package_name] ends on every path; it tests [path], then
    the directory of its canonical form, then each directory above, and
    stops at the first that holds [manifest.xml], whose name it returns,
    or, with [None], when going up no longer changes the directory. *)
Theorem get_package_name_nearest (w : World) (fuel : nat) (path : string) :
  String.length (PosixPath.dirname (realpath w path)) + 1 < fuel →
  ∃ k, let c := candidate path (PosixPath.dirname (realpath w path)) in
    (∀ j, j < k →
       path_exists w (PosixPath.join (c j) MANIFEST_FILE) = false ∧ c (S j) ≠ c j)
    ∧ ((path_exists w (PosixPath.join (c k) MANIFEST_FILE) = true
        ∧ get_package_name w fuel path
          = Some (Some (PosixPath.basename (PosixPath.abspath (cwd w) (c k)))))
       ∨ (path_exists w (PosixPath.join (c k) MANIFEST_FILE) = false
          ∧ c (S k) = c k
          ∧ get_package_name w fuel path = Some None)).
Proof.
  intros Hfuel.
  destruct (package_name_loop_spec w fuel path _ Hfuel) as (k & Hloop & Hbelow & Hend).
  exists k. cbn zeta. split; [done|]. unfold get_package_name. cbn zeta. rewrite Hloop.
  destruct (path_exists w (PosixPath.join (candidate path _ k) MANIFEST_FILE)) eqn:He.
  - by left.
  - right. destruct Hend as [?|Hend]; done.
Qed.

Lemma get_package_name_nearest_witness :
  let path := "/ws/tools/inner/src/main.cpp" in
  ∃ k, let c := candidate path (PosixPath.dirname (realpath Standalone.world path)) in
    (∀ j, j < k →
       path_exists Standalone.world (PosixPath.join (c j) MANIFEST_FILE) = false
       ∧ c (S j) ≠ c j)
    ∧ ((path_exists Standalone.world (PosixPath.join (c k) MANIFEST_FILE) = true
        ∧ get_package_name Standalone.world 40 path
          = Some (Some (PosixPath.basename (PosixPath.abspath (cwd Standalone.world) (c k)))))
       ∨ (path_exists Standalone.world (PosixPath.join (c k) MANIFEST_FILE) = false
          ∧ c (S k) = c k
          ∧ get_package_name Standalone.world 40 path = Some None)).
Proof.
  intros path. apply (get_package_name_nearest Standalone.world 40 path).
  vm_compute. lia.
Defined.

Example get_package_name_values :
  get_package_name Standalone.world 40 "/ws/tools/inner/src/main.cpp" = Some (Some "inner")
  ∧ get_package_name Standalone.world 40 "ws/solo/" = Some (Some "solo")
  ∧ get_package_name Standalone.world 40 "/ws/tools" = Some None.
Proof. split_and!; vm_compute; reflexivity. Qed.

(** ** Outcomes of [get_stack_version_by_dir] *)

Section StackVersion.
Context (w : World).

Lemma cmake_version_lines_outcome lines :
  (∃ msg, cmake_version_lines lines = Raise (ValueError msg))
  ∨ cmake_version_lines lines = Ok None
  ∨ ∃ v, cmake_version_lines lines = Ok (Some v) ∧ v ≠ "".
Proof.
  induction lines as [|l rest IH]; [by right; left|].
  cbn [cmake_version_lines].
  destruct (Str.startswith "rosbuild_make_distribution" (Str.strip l)); [|done].
  destruct (Str.split is_paren (Str.strip l)) as [|x [|version rest']];
    [left; by eexists..|].
  case_bool_decide; [|left; by eexists]. right; right. by exists version.
Qed.

Lemma cmake_version_by_dir_outcome stack_dir :
  cmake_version_by_dir w stack_dir = Ok None
  ∨ ∃ v, cmake_version_by_dir w stack_dir = Ok (Some v) ∧ v ≠ "".
Proof.
  unfold cmake_version_by_dir, _get_cmake_version.
  destruct (read_file w _) as [text|]; [|by left].
  destruct (cmake_version_lines_outcome (Str.split is_newline text))
    as [[msg ->]|[->|(v & -> & Hv)]]; [by left|by left|right; by exists v].
Qed.

End StackVersion.

(** X18: [get_stack_version_by_dir] raises exactly when [stack.xml] is
    a file and parsing it raises, with the exception of the parser; no
    content of [CMakeLists.txt] makes it raise. *)
Theorem stack_version_raises_iff (w : World) (stack_dir : string) (e : exn) :
  get_stack_version_by_dir w stack_dir = Raise e
  ↔ isfile w (PosixPath.join stack_dir STACK_FILE) = true
    ∧ parse_manifest_file w stack_dir STACK_FILE = Raise e.
Proof.
  unfold get_stack_version_by_dir.
  assert (Hcmake : cmake_version_by_dir w stack_dir ≠ Raise e).
  { by destruct (cmake_version_by_dir_outcome w stack_dir) as [->|(v & -> & _)]. }
  destruct (isfile w _); [|split; [done|by intros [? _]]].
  destruct (parse_manifest_file w stack_dir STACK_FILE) as [m|e']; [|split].
  - destruct (truthy (version m)); split; try done; by intros [_ ?].
  - by intros [= ->].
  - by intros [_ [= ->]].
Qed.

(** X19: a version [get_stack_version_by_dir] returns is never the
    empty string: an empty [<version>] and an empty argument in
    [CMakeLists.txt] both give [None]. *)
Theorem stack_version_is_not_empty (w : World) (stack_dir v : string) :
  get_stack_version_by_dir w stack_dir = Ok (Some v) → v ≠ "".
Proof.
  unfold get_stack_version_by_dir.
  assert (Hcmake : cmake_version_by_dir w stack_dir = Ok (Some v) → v ≠ "").
  { destruct (cmake_version_by_dir_outcome w stack_dir) as [->|(v' & -> & Hv)]; [done|].
    by intros [= <-]. }
  destruct (isfile w _); [|done].
  destruct (parse_manifest_file w stack_dir STACK_FILE) as [m|e']; [|done].
  destruct (truthy (version m)) eqn:Ht; [|done].
  intros [= Hv]. rewrite Hv in Ht. simpl in Ht. by apply bool_decide_eq_true in Ht.
Qed.

Lemma stack_version_is_not_empty_witness : "1.2.3" ≠ "".
Proof.
  apply (stack_version_is_not_empty
           (Unversioned.world "rosbuild_make_distribution(1.2.3)") "/stacks/s").
  vm_compute. reflexivity.
Defined.

(** ** [expand_to_packages] on a list of names *)

Section ExpandNames.
Context (w : World).

(** What the loop computes for names that are strings, from the index
    [pk] of the package resolver and the index [sk] of the stack
    resolver. *)
Definition expand_name (pk sk : gmap string string) (n : string) : list string :=
  if bool_decide (is_Some (pk !! n)) then [n]
  else match sk !! n with
       | Some p => (list_by_path w MANIFEST_FILE p ∅).1
       | None => []
       end.

Lemma index_of_update self :
  index_of w (_update_location_cache w self).2 = index_of w self.
Proof.
  unfold index_of. destruct (update_location_cache_sets w self) as [c Hc].
  by rewrite (update_location_cache_built w _ _ Hc).
Qed.

Lemma expand_loop_names package_list pk ns valid invalid rospack rosstack v i st' :
  (∀ s, s ∈ package_list ↔ is_Some (pk !! s)) →
  expand_loop w package_list (PyStr <$> ns) valid invalid (rospack, rosstack)
    = (Ok (v, i), st') →
  v = valid ++ (PyStr <$> (ns ≫= expand_name pk (index_of w rosstack)))
  ∧ i = invalid ++ (PyStr <$> filter (λ n, pk !! n = None ∧ index_of w rosstack !! n = None) ns).
Proof.
  intros Hlist. revert valid invalid rosstack.
  induction ns as [|n ns IH]; intros valid invalid rosstack.
  { intros [= <- <- _]. by rewrite !app_nil_r. }
  rewrite fmap_cons. cbn [expand_loop keys_contain].
  cbn [mbind list_bind]. unfold expand_name at 1.
  destruct (pk !! n) as [d|] eqn:Hpk.
  - rewrite bool_decide_eq_true_2 by (apply Hlist; by rewrite Hpk).
    rewrite bool_decide_eq_true_2 by done.
    rewrite filter_cons_False by (intros [? _]; congruence).
    intros (-> & ->)%IH. by rewrite <-!app_assoc.
  - rewrite bool_decide_eq_false_2 by (rewrite Hlist, Hpk; by intros [? ?]).
    rewrite bool_decide_eq_false_2 by (by intros [? ?]).
    cbn [packages_of_value]. unfold packages_of, bind, ret.
    destruct (get_path w n rosstack) as [[p|e] rosstack'] eqn:Hg.
    + apply get_path_ok in Hg as [Hp ->]. rewrite Hp.
      rewrite filter_cons_False by (intros [_ ?]; congruence).
      intros (-> & ->)%IH. rewrite index_of_update.
      by rewrite fmap_app, <-!app_assoc.
    + pose proof (get_path_state w n rosstack) as Hstate. rewrite Hg in Hstate.
      simpl in Hstate. subst rosstack'.
      apply get_path_raises in Hg as (Hnone & _). rewrite Hnone.
      rewrite filter_cons_True by done.
      destruct e; try done.
      intros (-> & ->)%IH. rewrite index_of_update.
      by rewrite fmap_cons, <-!app_assoc.
Qed.

End ExpandNames.

(** X20: for a list of strings, the first list [expand_to_packages]
    returns holds, name by name in the order given, the name itself when
    it is a package, and else the packages found under the stack of that
    name; the second list holds the names that are neither, in the order
    given.  A name that is both a package and a stack counts as the
    package; duplicates are kept. *)
Theorem expand_to_packages_names (w : World) (ns : list string)
    (rospack rosstack : ManifestManager) (valid invalid : list pyval) :
  (expand_to_packages w (PyList (PyStr <$> ns)) (rospack, rosstack)).1
    = Ok (valid, invalid) →
  valid = PyStr <$> (ns ≫= expand_name w (index_of w rospack) (index_of w rosstack))
  ∧ invalid
    = PyStr <$> filter (λ n, index_of w rospack !! n = None ∧ index_of w rosstack !! n = None) ns.
Proof.
  unfold expand_to_packages. cbn [sequence_items]. unfold list_, bind.
  pose proof (eq_refl (index_of w rospack)) as Hpk. unfold index_of at 1 in Hpk.
  destruct (_update_location_cache w rospack) as [[[]|e] rospack'] eqn:Hup; [|done].
  simpl in Hpk.
  destruct (expand_loop w _ (PyStr <$> ns) [] [] (rospack', rosstack)) as [r st'] eqn:Hloop.
  simpl. intros ->.
  apply (expand_loop_names w _ (index_of w rospack)) in Hloop; [done|].
  intros s. by rewrite elem_of_elements, elem_of_dom, Hpk.
Qed.

Lemma expand_to_packages_names_witness :
  let w := Standalone.world in
  let names := ["tools"; "solo"; "nowhere"; "inner"] in
  [PyStr "inner"; PyStr "solo"; PyStr "inner"]
  = PyStr <$> (names ≫= expand_name w (index_of w (RosPack w "/ws" ""))
                          (index_of w (RosStack w "/ws" "")))
  ∧ [PyStr "nowhere"]
    = PyStr <$> filter (λ n, index_of w (RosPack w "/ws" "") !! n = None
                             ∧ index_of w (RosStack w "/ws" "") !! n = None) names.
Proof.
  intros w names.
  apply (expand_to_packages_names w names (RosPack w "/ws" "") (RosStack w "/ws" "")).
  vm_compute. reflexivity.
Defined.
